(** * Dashboard front end: AnomalyList and LogViewer

    A shallow embedding of the two React components of
    [dashboard/frontend/src/components/AnomalyList.js] and of the properties
    the specification states about them.

    A React function component is a function of its committed state; every
    handler it creates closes over the values of the render that created it.
    The embedding keeps both: [State] is the committed state (one field per
    [useState] cell), a [Closure] is what a handler created by some render
    reads later, and a [World] adds the promises that are still pending.  An
    [async] function is cut at each [await]: the part before it runs when the
    function is called, the part after it when the promise settles. *)

From Stdlib Require Import ZArith String Ascii List Lia.
From stdpp Require Import base decidable option list sets gmap strings.

Local Open Scope Z_scope.
Local Open Scope string_scope.

(** ** AnomalyList *)

Module AnomalyList.

(** [activeTab]: ['anomaly'] or ['unidentified'] (the two [Tab] values). *)
Inductive Tab := anomaly | unidentified.

#[global] Instance Tab_eq_dec : EqDecision Tab.
Proof. solve_decision. Defined.

(** Record ids are the numbers the API assigns; times are [Date] values in
    milliseconds. *)
Abbreviation RecordId := Z (only parsing).
Abbreviation Time := Z (only parsing).

(** One element of the array [fetchAnomalyParams] resolves to. *)
Record Item := mkItem {
  id : RecordId;
  timestamp : Time;
  param_value : string
}.

(** The object [getSlackStatus] resolves to. *)
Record SlackStatus := mkSlackStatus {
  task_running : bool;
  auto_send_enabled : bool;
  sent_records_count : Z
}.

(** The [useState] cells of the component, in declaration order. *)
Record State := mkState {
  anomalyParams : list Item;
  loading : bool;
  error : option string;
  activeTab : Tab;
  retryCount : nat;
  lastSyncTime : option Time;
  lastCheckTime : option Time;
  lastDataUpdateTime : option Time;
  seenRecordIds : gset Z;
  slackStatus : option SlackStatus;
  slackSending : bool
}.

(** The initial values given to [useState]. *)
Definition initialState : State :=
  {| anomalyParams := [];
     loading := true;
     error := None;
     activeTab := anomaly;
     retryCount := 0%nat;
     lastSyncTime := None;
     lastCheckTime := None;
     lastDataUpdateTime := None;
     seenRecordIds := ∅;
     slackStatus := None;
     slackSending := false |}.

(** The setters returned by [useState]. *)
Definition setAnomalyParams (v : list Item) (s : State) : State :=
  mkState v (loading s) (error s) (activeTab s) (retryCount s) (lastSyncTime s)
    (lastCheckTime s) (lastDataUpdateTime s) (seenRecordIds s) (slackStatus s)
    (slackSending s).

Definition setLoading (v : bool) (s : State) : State :=
  mkState (anomalyParams s) v (error s) (activeTab s) (retryCount s)
    (lastSyncTime s) (lastCheckTime s) (lastDataUpdateTime s) (seenRecordIds s)
    (slackStatus s) (slackSending s).

Definition setError (v : option string) (s : State) : State :=
  mkState (anomalyParams s) (loading s) v (activeTab s) (retryCount s)
    (lastSyncTime s) (lastCheckTime s) (lastDataUpdateTime s) (seenRecordIds s)
    (slackStatus s) (slackSending s).

Definition setActiveTab (v : Tab) (s : State) : State :=
  mkState (anomalyParams s) (loading s) (error s) v (retryCount s)
    (lastSyncTime s) (lastCheckTime s) (lastDataUpdateTime s) (seenRecordIds s)
    (slackStatus s) (slackSending s).

(** [setRetryCount] and [setSeenRecordIds] are also called with an updater
    function, which React applies to the state of the moment. *)
Definition setRetryCount (f : nat → nat) (s : State) : State :=
  mkState (anomalyParams s) (loading s) (error s) (activeTab s)
    (f (retryCount s)) (lastSyncTime s) (lastCheckTime s)
    (lastDataUpdateTime s) (seenRecordIds s) (slackStatus s) (slackSending s).

Definition setLastCheckTime (v : option Time) (s : State) : State :=
  mkState (anomalyParams s) (loading s) (error s) (activeTab s) (retryCount s)
    (lastSyncTime s) v (lastDataUpdateTime s) (seenRecordIds s) (slackStatus s)
    (slackSending s).

Definition setLastDataUpdateTime (v : option Time) (s : State) : State :=
  mkState (anomalyParams s) (loading s) (error s) (activeTab s) (retryCount s)
    (lastSyncTime s) (lastCheckTime s) v (seenRecordIds s) (slackStatus s)
    (slackSending s).

Definition setSeenRecordIds (f : gset Z → gset Z) (s : State) : State :=
  mkState (anomalyParams s) (loading s) (error s) (activeTab s) (retryCount s)
    (lastSyncTime s) (lastCheckTime s) (lastDataUpdateTime s)
    (f (seenRecordIds s)) (slackStatus s) (slackSending s).

Definition setSlackStatus (v : option SlackStatus) (s : State) : State :=
  mkState (anomalyParams s) (loading s) (error s) (activeTab s) (retryCount s)
    (lastSyncTime s) (lastCheckTime s) (lastDataUpdateTime s) (seenRecordIds s)
    v (slackSending s).

Definition setSlackSending (v : bool) (s : State) : State :=
  mkState (anomalyParams s) (loading s) (error s) (activeTab s) (retryCount s)
    (lastSyncTime s) (lastCheckTime s) (lastDataUpdateTime s) (seenRecordIds s)
    (slackStatus s) v.

(** What [fetchData] reads from the render that created it: [activeTab] and
    [seenRecordIds] are [const] bindings of that render. *)
Record Closure := mkClosure {
  cl_activeTab : Tab;
  cl_seenRecordIds : gset Z
}.

Definition render (s : State) : Closure :=
  {| cl_activeTab := activeTab s; cl_seenRecordIds := seenRecordIds s |}.

(** Who awaits [fetchSlackStatus]: the tab effect does not await it,
    [syncToSlack] and [toggleAutoSend] do. *)
Inductive Caller := FromEffect | FromSync | FromToggle.

(** A promise that has not settled yet, with the continuation waiting on it. *)
Inductive Pending :=
| AwaitFetch (cl : Closure) (forceUpdate : bool)  (* fetchAnomalyParams, in fetchData *)
| AwaitSend                                      (* sendNewDataToSlack, in syncToSlack *)
| AwaitStatus (k : Caller)                       (* getSlackStatus, in fetchSlackStatus *)
| AwaitToggle.                                   (* toggleSlackAutoSend, in toggleAutoSend *)

(** How a promise settles.  [getSlackStatus] resolves to the body of the
    answer, which is a status object or, when the answer has none, null or
    undefined: [None]. *)
Inductive Response :=
| FetchOk (data : list Item)
| SendOk
| StatusOk (status : option SlackStatus)
| ToggleOk
| Rejected.

(** The lines the component writes to the console. *)
Inductive Console :=
| LogFound (n : nat) (tab : Tab)   (* Found n new tab records *)
| LogNoNew (tab : Tab)             (* No new tab records found *)
| ErrFetch
| LogSyncResult
| ErrSync
| ErrStatus
| ErrToggle.

Record World := mkWorld {
  ui : State;
  inflight : list Pending;
  console : list Console
}.

Definition onUi (f : State → State) (w : World) : World :=
  mkWorld (f (ui w)) (inflight w) (console w).

Definition await (p : Pending) (w : World) : World :=
  mkWorld (ui w) (inflight w ++ [p]) (console w).

Definition settled (i : nat) (w : World) : World :=
  mkWorld (ui w) (delete i (inflight w)) (console w).

Definition log (c : Console) (w : World) : World :=
  mkWorld (ui w) (inflight w) (console w ++ [c]).

(** *** fetchData

    Line 43: [new Set(data.map(item => item.id))]. *)
Definition currentRecordIds (data : list Item) : gset Z :=
  list_to_set (map id data).

(** Line 44: [data.filter(item => !seenRecordIds.has(item.id))], where
    [seenRecordIds] is the binding of the render that created this
    [fetchData]. *)
Definition newRecords (cl : Closure) (data : list Item) : list Item :=
  filter (λ item, id item ∉ cl_seenRecordIds cl) data.

(** Lines 28-40: the part of [fetchData] that runs before the [await]. *)
Definition fetchData_call (cl : Closure) (forceUpdate : bool) (w : World) : World :=
  let w := if negb forceUpdate
           then onUi (setLoading false) w
           else onUi (setLoading true) w in
  await (AwaitFetch cl forceUpdate) w.

(** Lines 68-72: the [finally] block. *)
Definition fetchData_finally (forceUpdate : bool) (w : World) : World :=
  if forceUpdate then onUi (setLoading false) w else w.

(** Lines 42-63: the continuation when [fetchAnomalyParams] resolves to
    [data]; [now] is what [new Date()] returns then. *)
Definition fetchData_then (cl : Closure) (forceUpdate : bool) (now : Time)
    (data : list Item) (w : World) : World :=
  let found := newRecords cl data in
  let w :=
    if bool_decide (0 < length found)%nat || forceUpdate then
      let w := onUi (setAnomalyParams data) w in
      let w := onUi (setError None) w in
      let w := onUi (setLastDataUpdateTime (Some now)) w in
      let w := onUi (setSeenRecordIds (λ prev, prev ∪ currentRecordIds data)) w in
      let w := if bool_decide (0 < length found)%nat
               then log (LogFound (length found) (cl_activeTab cl)) w
               else w in
      onUi (setRetryCount (λ _, 0%nat)) w
    else
      log (LogNoNew (cl_activeTab cl)) w in
  fetchData_finally forceUpdate w.

(** The text given to [setError] at line 66. *)
Definition fetch_failure_text : string :=
  "Failed to load parameters. Please try again.".

(** Lines 64-67: the [catch] block, when [fetchAnomalyParams] rejects. *)
Definition fetchData_catch (forceUpdate : bool) (w : World) : World :=
  let w := log ErrFetch w in
  let w := onUi (setError (Some fetch_failure_text)) w in
  let w := onUi (setRetryCount (λ prevCount, prevCount + 1)%nat) w in
  fetchData_finally forceUpdate w.

(** *** Slack operations

    Lines 91-98: [fetchSlackStatus] up to its [await]; [k] is the caller that
    resumes when it returns. *)
Definition fetchSlackStatus_call (k : Caller) (w : World) : World :=
  await (AwaitStatus k) w.

(** What the caller of [fetchSlackStatus] does once it has returned:
    [syncToSlack] runs its [finally] block (line 87), the others nothing. *)
Definition resume (k : Caller) (w : World) : World :=
  match k with
  | FromSync => onUi (setSlackSending false) w
  | FromEffect | FromToggle => w
  end.

(** Line 94: [setSlackStatus(status)], with whatever arrived. *)
Definition fetchSlackStatus_then (k : Caller) (status : option SlackStatus)
    (w : World) : World :=
  resume k (onUi (setSlackStatus status) w).

Definition fetchSlackStatus_catch (k : Caller) (w : World) : World :=
  resume k (log ErrStatus w).

(** Lines 75-78: [syncToSlack] up to the [await] of the sink call. *)
Definition syncToSlack_call (w : World) : World :=
  await AwaitSend (onUi (setSlackSending true) w).

(** Lines 79-82: the sink call resolved; the status refresh is awaited. *)
Definition syncToSlack_then (w : World) : World :=
  fetchSlackStatus_call FromSync (log LogSyncResult w).

(** Lines 84-88: the sink call rejected. *)
Definition syncToSlack_catch (w : World) : World :=
  onUi (setSlackSending false) (log ErrSync w).

(** Lines 100-108: [toggleAutoSend].  The new flag is an argument of the
    request only, so the continuation does not depend on it. *)
Definition toggleAutoSend_call (w : World) : World := await AwaitToggle w.
Definition toggleAutoSend_then (w : World) : World := fetchSlackStatus_call FromToggle w.
Definition toggleAutoSend_catch (w : World) : World := log ErrToggle w.

(** *** Effects and handlers

    Lines 111-116: the effect with dependency [activeTab], run by the render
    [cl].  [setSeenRecordIds(new Set())] is queued first, then [fetchData] of
    that same render is called. *)
Definition tabEffect (cl : Closure) (now : Time) (w : World) : World :=
  let w := onUi (setLastCheckTime (Some now)) w in
  let w := onUi (setSeenRecordIds (λ _, ∅)) w in
  let w := fetchData_call cl true w in
  fetchSlackStatus_call FromEffect w.

(** The component after its first render and effect. *)
Definition mount (now : Time) : World :=
  tabEffect (render initialState) now (mkWorld initialState [] []).

(** Lines 131-133 and the render that follows: [setActiveTab] with the value
    already held is ignored by React; otherwise the component renders with
    the new tab and the seen ids it still holds, and that render runs the
    effect. *)
Definition handleTabChange (newValue : Tab) (now : Time) (w : World) : World :=
  if decide (newValue = activeTab (ui w)) then w
  else
    let w := onUi (setActiveTab newValue) w in
    tabEffect (render (ui w)) now w.

(** Lines 119-126: the interval callback.  The interval is set up again after
    every render that changes [activeTab] or [seenRecordIds], so its
    [fetchData] is the one of the committed state. *)
Definition intervalTick (now : Time) (w : World) : World :=
  let w' := onUi (setLastCheckTime (Some now)) w in
  fetchData_call (render (ui w)) false w'.

(** Lines 135-138; the Retry button is rendered inside [{error && ...}]. *)
Definition handleRefresh (now : Time) (w : World) : World :=
  match error (ui w) with
  | None => w
  | Some _ =>
      let w' := onUi (setLastCheckTime (Some now)) w in
      fetchData_call (render (ui w)) true w'
  end.

(** Line 200: the [disabled] attribute of the send button, which is rendered
    only when [slackStatus] is set (line 171). *)
Definition sendDisabled (s : State) : bool :=
  match slackStatus s with
  | None => true
  | Some status => slackSending s || negb (task_running status)
  end.

Definition clickSend (w : World) : World :=
  if sendDisabled (ui w) then w else syncToSlack_call w.

Definition clickAuto (w : World) : World :=
  match slackStatus (ui w) with
  | None => w
  | Some _ => toggleAutoSend_call w
  end.

(** *** The event loop *)
Inductive Event :=
| TabClick (newValue : Tab) (now : Time)
| IntervalTick (now : Time)
| RetryClick (now : Time)
| SendClick
| AutoClick
| Settle (i : nat) (r : Response) (now : Time).

(** The [i]-th pending promise settles with [r].  A response of the wrong
    kind for that promise, or an index with no promise, changes nothing. *)
Definition settle (i : nat) (r : Response) (now : Time) (w : World) : World :=
  match inflight w !! i, r with
  | Some (AwaitFetch cl forceUpdate), FetchOk data =>
      fetchData_then cl forceUpdate now data (settled i w)
  | Some (AwaitFetch cl forceUpdate), Rejected =>
      fetchData_catch forceUpdate (settled i w)
  | Some AwaitSend, SendOk => syncToSlack_then (settled i w)
  | Some AwaitSend, Rejected => syncToSlack_catch (settled i w)
  | Some (AwaitStatus k), StatusOk status =>
      fetchSlackStatus_then k status (settled i w)
  | Some (AwaitStatus k), Rejected => fetchSlackStatus_catch k (settled i w)
  | Some AwaitToggle, ToggleOk => toggleAutoSend_then (settled i w)
  | Some AwaitToggle, Rejected => toggleAutoSend_catch (settled i w)
  | _, _ => w
  end.

Definition step (e : Event) (w : World) : World :=
  match e with
  | TabClick newValue now => handleTabChange newValue now w
  | IntervalTick now => intervalTick now w
  | RetryClick now => handleRefresh now w
  | SendClick => clickSend w
  | AutoClick => clickAuto w
  | Settle i r now => settle i r now w
  end.

Definition run (es : list Event) (w : World) : World :=
  foldl (λ w e, step e w) w es.

(** *** Observations on a world

    The sink calls ([sendNewDataToSlack]) that have not settled, and the runs
    of [syncToSlack] that have not reached the end of their [finally] block:
    those that wait for the sink or for the status refresh after it. *)
Definition isSend (p : Pending) : bool :=
  match p with
  | AwaitSend => true
  | _ => false
  end.

Definition isSync (p : Pending) : bool :=
  match p with
  | AwaitSend | AwaitStatus FromSync => true
  | _ => false
  end.

Definition sendsInFlight (w : World) : nat :=
  length (List.filter isSend (inflight w)).

Definition syncsRunning (w : World) : nat :=
  length (List.filter isSync (inflight w)).

(** The invariant of the sending flag: it is set exactly while one run of
    [syncToSlack] is under way, and no second one is. *)
Definition flagged (w : World) : nat :=
  if slackSending (ui w) then 1%nat else 0%nat.

Definition sync_invariant (w : World) : Prop := syncsRunning w = flagged w.

(** The consumers of deduplicated records and what the component holds for
    each.  Line 22 declares one [seenRecordIds] cell: the check of line 44
    reads it and the update of line 53 writes it whichever tab the fetch was
    made for, so it is the seen-id state of either tab.  For the notification
    channel the component holds the status it last read and the sending flag;
    the ids the channel has sent are not in the component. *)
Inductive Context :=
| TabContext (t : Tab)
| NotificationChannel.

Inductive Held :=
| SeenIds (ids : gset Z)
| Channel (status : option SlackStatus) (sending : bool).

Definition held (c : Context) (w : World) : Held :=
  match c with
  | TabContext _ => SeenIds (seenRecordIds (ui w))
  | NotificationChannel => Channel (slackStatus (ui w)) (slackSending (ui w))
  end.

(** The reset of a context.  A tab restarts when it is selected: the click
    runs the effect that clears the seen ids (line 113).  The component has no
    operation that resets the channel. *)
Definition reset (c : Context) (now : Time) (w : World) : World :=
  match c with
  | TabContext t => handleTabChange t now w
  | NotificationChannel => w
  end.

(** A run of events within one session of a tab: no tab is clicked. *)
Definition no_tab_click (es : list Event) : Prop :=
  Forall (λ e, ∀ newValue t, e ≠ TabClick newValue t) es.

(** What the list view shows of the fetched records. *)
Record Display := mkDisplay {
  shown_records : list Item;
  shown_error : option string;
  shown_seen : gset Z;
  shown_update_time : option Time
}.

Definition display (w : World) : Display :=
  {| shown_records := anomalyParams (ui w);
     shown_error := error (ui w);
     shown_seen := seenRecordIds (ui w);
     shown_update_time := lastDataUpdateTime (ui w) |}.

(** A run in which the first fetch is still pending when the interval fires:
    the API answers both requests with the same single record. *)
Definition record1 : Item :=
  {| id := 1; timestamp := 1700000000000; param_value := "cpu=99" |}.

Definition slow_first_fetch : list Event :=
  [ IntervalTick 10000;
    Settle 0 (FetchOk [record1]) 10500 ].

Definition late_poll : Event := Settle 1 (FetchOk [record1]) 10600.

(** The component on the tab it mounts with, after its first fetch resolved
    to record 1. *)
Definition first_fetch_done : World :=
  run [Settle 0 (FetchOk [record1]) 500] (mount 0).

End AnomalyList.

(** ** LogViewer *)

Module LogViewer.

(** The built-in functions the component calls.  [JSON.parse] either returns
    a value or throws a [SyntaxError]; [JSON.stringify] is applied only to
    values [JSON.parse] returned, for which it returns a string. *)
Inductive Exn := SyntaxError.

Inductive Completion (A : Type) :=
| Normal (a : A)
| Throw (e : Exn).
Arguments Normal {A} a.
Arguments Throw {A} e.

#[global] Instance Completion_bind : MBind Completion :=
  λ A B k c,
    match c with
    | Normal a => k a
    | Throw e => Throw e
    end.

(** [try { body } catch (error) { handler }]. *)
Definition try_catch {A} (body : Completion A) (handler : Exn → Completion A) : Completion A :=
  match body with
  | Normal a => Normal a
  | Throw e => handler e
  end.

Class Builtins (Json : Type) := {
  JSON_parse : string → Completion Json;
  JSON_stringify : Json → string;
  toLowerCase : string → string
}.

(** [String.prototype.includes]: does [search] occur in [s]? *)
Fixpoint startsWith (s search : string) {struct search} : bool :=
  match search, s with
  | EmptyString, _ => true
  | String _ _, EmptyString => false
  | String b search', String a s' =>
      if Ascii.eqb a b then startsWith s' search' else false
  end.

Fixpoint includes (s search : string) : bool :=
  startsWith s search ||
  match s with
  | EmptyString => false
  | String _ s' => includes s' search
  end.

(** [Array.prototype.slice(start)]: a negative [start] counts from the end,
    and both ends are clamped to the array. *)
Definition slice {A} (start : Z) (l : list A) : list A :=
  let len := Z.of_nat (length l) in
  let k := if (start <? 0)%Z then Z.max (len + start) 0 else Z.min start len in
  drop (Z.to_nat k) l.

(** A string is falsy exactly when it is empty. *)
Definition falsy (s : string) : bool :=
  match s with
  | EmptyString => true
  | String _ _ => false
  end.

Inductive Console :=
| WarnEmptyData      (* Received empty data in log event *)
| ErrParseLog        (* Error parsing log event data *)
| LogPing            (* Received ping *)
| ErrParsePing       (* Error parsing ping data *)
| ErrSSE.            (* LogViewer SSE error *)

Section Component.
Context {Json : Type} `{!Builtins Json}.

(** The [useState] cells of the component. *)
Record State := mkState {
  logs : list Json;
  filter : string;
  connectionError : bool
}.

Definition initialState : State :=
  {| logs := []; filter := ""; connectionError := false |}.

Record World := mkWorld {
  ui : State;
  console : list Console
}.

Definition setLogs (f : list Json → list Json) (w : World) : World :=
  mkWorld (mkState (f (logs (ui w))) (filter (ui w)) (connectionError (ui w)))
    (console w).

Definition setFilter (v : string) (w : World) : World :=
  mkWorld (mkState (logs (ui w)) v (connectionError (ui w))) (console w).

Definition setConnectionError (v : bool) (w : World) : World :=
  mkWorld (mkState (logs (ui w)) (filter (ui w)) v) (console w).

Definition log (c : Console) (w : World) : World :=
  mkWorld (ui w) (console w ++ [c]).

(** Lines 295-313: the listener for ['log'] events; [data] is [event.data]. *)
Definition onLog (data : string) (w : World) : Completion World :=
  try_catch
    (if falsy data then
       Normal (log WarnEmptyData w)
     else
       logData ← JSON_parse data;
       Normal (setLogs (λ prevLogs, slice (-100) (prevLogs ++ [logData])) w))
    (λ _, Normal (log ErrParseLog w)).

(** Lines 316-324: the listener for ['ping'] events. *)
Definition onPing (data : string) (w : World) : Completion World :=
  try_catch
    (pingData ← JSON_parse data;
     let w := setConnectionError false w in
     Normal (log LogPing w))
    (λ _, Normal (log ErrParsePing w)).

(** Lines 286-289: [handleError]. *)
Definition handleError (w : World) : Completion World :=
  Normal (setConnectionError true (log ErrSSE w)).

(** Lines 342-344: [handleFilterChange]; [value] is [e.target.value]. *)
Definition handleFilterChange (value : string) (w : World) : Completion World :=
  Normal (setFilter value w).

(** Lines 376-379: the predicate given to [logs.filter] and the list it
    returns, which is the list the component displays. *)
Definition shown (flt : string) (entry : Json) : bool :=
  if falsy flt then true
  else includes (toLowerCase (JSON_stringify entry)) (toLowerCase flt).

Definition visibleLogs (s : State) : list Json :=
  List.filter (shown (filter s)) (logs s).

(** What the event source and the user deliver to the component. *)
Inductive Event :=
| LogEvent (data : string)
| PingEvent (data : string)
| ErrorEvent
| FilterInput (value : string).

Definition dispatch (e : Event) (w : World) : Completion World :=
  match e with
  | LogEvent data => onLog data w
  | PingEvent data => onPing data w
  | ErrorEvent => handleError w
  | FilterInput value => handleFilterChange value w
  end.

(** The browser calls the listeners one event after the other.  An
    exception that leaves a listener is reported and the next event is
    delivered; the state is then the one before the listener ran, since no
    listener calls a setter before the point where it can throw. *)
Fixpoint deliver (es : list Event) (w : World) : World :=
  match es with
  | [] => w
  | e :: es' =>
      match dispatch e w with
      | Normal w' => deliver es' w'
      | Throw _ => deliver es' w
      end
  end.

(** The records the stream has delivered: the payloads of the ['log'] events
    that are not empty and parse, in delivery order. *)
Fixpoint delivered (es : list Event) : list Json :=
  match es with
  | [] => []
  | LogEvent data :: es' =>
      match falsy data, JSON_parse data with
      | false, Normal v => v :: delivered es'
      | _, _ => delivered es'
      end
  | _ :: es' => delivered es'
  end.

End Component.

Arguments State Json : clear implicits.
Arguments World Json : clear implicits.
Arguments Event : clear implicits.

End LogViewer.

(** ** The built-ins, for text in ASCII

    [JSON.parse] as a recursive-descent parser of the JSON grammar (ECMA-404)
    that returns the syntax tree of the text: number and string literals are
    kept as written.  It accepts exactly the texts of the grammar.  [stringify]
    writes a tree back without white space, which is what [JSON.stringify]
    returns for a text whose literals are already written its way and whose
    keys are distinct and not array indices.  [lower] is
    [String.prototype.toLowerCase] on the letters A to Z. *)

Module JSON.

#[warnings="-register-all"] Inductive value :=
| Null
| Bool (b : bool)
| Number (literal : string)
| Str (chars : string)
| Array (items : list value)
| Object (members : list (string * value)).

Definition code (c : ascii) : nat := nat_of_ascii c.

Definition is_ws (c : ascii) : bool :=
  let n := code c in
  (n =? 32)%nat || (n =? 9)%nat || (n =? 10)%nat || (n =? 13)%nat.

Definition is_digit (c : ascii) : bool :=
  let n := code c in (48 <=? n)%nat && (n <=? 57)%nat.

Definition is_hex (c : ascii) : bool :=
  let n := code c in
  is_digit c || ((65 <=? n)%nat && (n <=? 70)%nat)
             || ((97 <=? n)%nat && (n <=? 102)%nat).

Fixpoint skip_ws (s : string) : string :=
  match s with
  | String c s' => if is_ws c then skip_ws s' else s
  | EmptyString => s
  end.

(** Reads the longest run of digits; the run and the rest. *)
Fixpoint digits (s : string) : string * string :=
  match s with
  | String c s' =>
      if is_digit c then
        let '(d, rest) := digits s' in (String c d, rest)
      else (EmptyString, s)
  | EmptyString => (EmptyString, s)
  end.

Definition digits1 (s : string) : option (string * string) :=
  match digits s with
  | (EmptyString, _) => None
  | (d, rest) => Some (d, rest)
  end.

(** int: a single 0, or a digit from 1 to 9 followed by digits. *)
Definition int_part (s : string) : option (string * string) :=
  match s with
  | String "0" rest => Some ("0", rest)
  | _ => digits1 s
  end.

Definition frac_part (s : string) : option (string * string) :=
  match s with
  | String "." s' =>
      match digits1 s' with
      | Some (d, rest) => Some (String "." d, rest)
      | None => None
      end
  | _ => Some (EmptyString, s)
  end.

Definition exp_digits (mark : string) (s : string) : option (string * string) :=
  match digits1 s with
  | Some (d, rest) => Some (mark ++ d, rest)
  | None => None
  end.

Definition exp_sign (mark : ascii) (s : string) : option (string * string) :=
  match s with
  | String "+" s' => exp_digits (String mark "+") s'
  | String "-" s' => exp_digits (String mark "-") s'
  | _ => exp_digits (String mark "") s
  end.

Definition exp_part (s : string) : option (string * string) :=
  match s with
  | String "e" s' => exp_sign "e" s'
  | String "E" s' => exp_sign "E" s'
  | _ => Some (EmptyString, s)
  end.

Definition unsigned_number (s : string) : option (string * string) :=
  match int_part s with
  | Some (i, s1) =>
      match frac_part s1 with
      | Some (f, s2) =>
          match exp_part s2 with
          | Some (e, s3) => Some (i ++ f ++ e, s3)
          | None => None
          end
      | None => None
      end
  | None => None
  end.

Definition number (s : string) : option (string * string) :=
  match s with
  | String "-" s' =>
      match unsigned_number s' with
      | Some (n, rest) => Some (String "-" n, rest)
      | None => None
      end
  | _ => unsigned_number s
  end.

(** The quotation mark, character 34. *)
Definition quote : ascii := ascii_of_nat 34.

Definition is_quote (c : ascii) : bool := Ascii.eqb c quote.

Definition is_escape (c : ascii) : bool :=
  is_quote c ||
  match c with
  | "\" | "/" | "b" | "f" | "n" | "r" | "t" => true
  | _ => false
  end%char.

(** The characters of a string literal after the opening quote, up to the
    closing one. *)
Fixpoint chars (s : string) : option (string * string) :=
  match s with
  | EmptyString => None
  | String "\" (String "u" (String a (String b (String c (String d s'))))) =>
      if is_hex a && is_hex b && is_hex c && is_hex d then
        match chars s' with
        | Some (t, rest) =>
            Some (String "\" (String "u" (String a (String b (String c (String d t))))), rest)
        | None => None
        end
      else None
  | String "\" (String e s') =>
      if is_escape e then
        match chars s' with
        | Some (t, rest) => Some (String "\" (String e t), rest)
        | None => None
        end
      else None
  | String "\" EmptyString => None
  | String c s' =>
      if is_quote c then Some (EmptyString, s')
      else if (code c <? 32)%nat then None
      else
        match chars s' with
        | Some (t, rest) => Some (String c t, rest)
        | None => None
        end
  end.

Definition literal (word : string) (v : value) (s : string) : option (value * string) :=
  if String.prefix word s
  then Some (v, String.substring (String.length word) (String.length s - String.length word) s)
  else None.

(** value, elements and members.  [fuel] bounds the nesting of values and
    [room] the number of elements or members of one array or object; each
    level of nesting and each element takes at least one character, so the
    length of the text is enough for both. *)
Fixpoint parse_value (fuel : nat) (s : string) : option (value * string) :=
  match fuel with
  | O => None
  | S fuel =>
      let elements :=
        fix elements (room : nat) (s : string) : option (list value * string) :=
          match room with
          | O => None
          | S room =>
              match parse_value fuel (skip_ws s) with
              | Some (v, rest) =>
                  match skip_ws rest with
                  | String "," rest' =>
                      match elements room rest' with
                      | Some (vs, rest'') => Some (v :: vs, rest'')
                      | None => None
                      end
                  | String "]" rest' => Some ([v], rest')
                  | _ => None
                  end
              | None => None
              end
          end in
      let members :=
        fix members (room : nat) (s : string) : option (list (string * value) * string) :=
          match room with
          | O => None
          | S room =>
              match skip_ws s with
              | String c s1 =>
                  match (if is_quote c then chars s1 else None) with
                  | Some (k, s2) =>
                      match skip_ws s2 with
                      | String ":" s3 =>
                          match parse_value fuel (skip_ws s3) with
                          | Some (v, rest) =>
                              match skip_ws rest with
                              | String "," rest' =>
                                  match members room rest' with
                                  | Some (kvs, rest'') => Some ((k, v) :: kvs, rest'')
                                  | None => None
                                  end
                              | String "}" rest' => Some ([(k, v)], rest')
                              | _ => None
                              end
                          | None => None
                          end
                      | _ => None
                      end
                  | None => None
                  end
              | EmptyString => None
              end
          end in
      match s with
      | String "n" _ => literal "null" Null s
      | String "t" _ => literal "true" (Bool true) s
      | String "f" _ => literal "false" (Bool false) s
      | String "[" s' =>
          match skip_ws s' with
          | String "]" rest => Some (Array [], rest)
          | _ =>
              match elements (String.length s') s' with
              | Some (vs, rest) => Some (Array vs, rest)
              | None => None
              end
          end
      | String "{" s' =>
          match skip_ws s' with
          | String "}" rest => Some (Object [], rest)
          | _ =>
              match members (String.length s') s' with
              | Some (kvs, rest) => Some (Object kvs, rest)
              | None => None
              end
          end
      | String c s' =>
          if is_quote c then
            match chars s' with
            | Some (t, rest) => Some (Str t, rest)
            | None => None
            end
          else
            match number s with
            | Some (n, rest) => Some (Number n, rest)
            | None => None
            end
      | EmptyString => None
      end
  end.

(** [JSON.parse(text)]: white space, one value, white space, end of text. *)
Definition parse (text : string) : LogViewer.Completion value :=
  match parse_value (S (String.length text)) (skip_ws text) with
  | Some (v, rest) =>
      match skip_ws rest with
      | EmptyString => LogViewer.Normal v
      | _ => LogViewer.Throw LogViewer.SyntaxError
      end
  | None => LogViewer.Throw LogViewer.SyntaxError
  end.

Definition quoted (s : string) : string :=
  String quote (s ++ String quote EmptyString).

Fixpoint stringify (v : value) : string :=
  match v with
  | Null => "null"
  | Bool true => "true"
  | Bool false => "false"
  | Number n => n
  | Str s => quoted s
  | Array items =>
      "[" ++ String.concat "," (map stringify items) ++ "]"
  | Object members =>
      "{" ++ String.concat ","
               (map (λ kv, quoted (fst kv) ++ ":" ++ stringify (snd kv)) members)
          ++ "}"
  end.

Definition lower_char (c : ascii) : ascii :=
  let n := code c in
  if (65 <=? n)%nat && (n <=? 90)%nat then ascii_of_nat (n + 32) else c.

Fixpoint lower (s : string) : string :=
  match s with
  | EmptyString => EmptyString
  | String c s' => String (lower_char c) (lower s')
  end.

Definition builtins : LogViewer.Builtins value :=
  {| LogViewer.JSON_parse := parse;
     LogViewer.JSON_stringify := stringify;
     LogViewer.toLowerCase := lower |}.

End JSON.

(** ** A stream for the examples

    The event source reported an error, so the connection error indicator
    is set, and the next ['ping'] event carries a payload that is not JSON. *)

Module Stream.

#[local] Existing Instance JSON.builtins.

Definition start : LogViewer.World JSON.value :=
  LogViewer.mkWorld LogViewer.initialState [].

Definition after_error : LogViewer.World JSON.value :=
  LogViewer.deliver [LogViewer.ErrorEvent] start.

(** The payload [{"timestamp":1700000000,"message":"ok"}]. *)
Definition payload : string :=
  "{" ++ JSON.quoted "timestamp" ++ ":1700000000,"
      ++ JSON.quoted "message" ++ ":" ++ JSON.quoted "ok" ++ "}".

Definition one_log : list LogViewer.Event := [ LogViewer.LogEvent payload ].

End Stream.

(** ** What the two components render *)

Module AnomalyListView.
Import AnomalyList.

(** Lines 238-264: what is shown below the Slack panel, by the conditional
    [loading ? ... : anomalyParams.length === 0 ? ... : ...]. *)
Inductive MainView :=
| Spinner
| EmptyList (tab : Tab)                     (* No tab parameters found *)
| Params (items : list Item) (tab : Tab).

Definition mainView (s : State) : MainView :=
  if loading s then Spinner
  else if bool_decide (length (anomalyParams s) = 0%nat) then EmptyList (activeTab s)
  else Params (anomalyParams s) (activeTab s).

(** Line 219: [{error && <Alert ...>}], with the Retry button inside; a
    string is truthy when it is not empty. *)
Definition alertShown (s : State) : bool :=
  match error s with
  | Some (String _ _) => true
  | _ => false
  end.

(** The fetches that were called with [forceUpdate] and have not settled. *)
Definition isForced (p : Pending) : bool :=
  match p with
  | AwaitFetch _ true => true
  | _ => false
  end.

Definition forcedInFlight (w : World) : nat :=
  length (List.filter isForced (inflight w)).

(** The worlds the component reaches from its mount. *)
Definition reachable (w : World) : Prop :=
  ∃ now es, w = run es (mount now).

(** The promise an event has just started is the last of the pending ones. *)
Definition started (w : World) : nat := length (inflight w).

(** One poll from start to end: the interval fires at [tick] and the fetch
    it starts resolves to [data] at [done], before any other event. *)
Definition poll (tick done : Time) (data : list Item) (w : World) : World :=
  step (Settle (started w) (FetchOk data) done) (step (IntervalTick tick) w).



(** Every displayed record has its id among the seen ids. *)
Definition displayed_seen (w : World) : Prop :=
  ∀ item, item ∈ anomalyParams (ui w) → id item ∈ seenRecordIds (ui w).

(** The spinner is on only while a forced fetch is pending. *)
Definition spinner_invariant (w : World) : Prop :=
  loading (ui w) = true → (0 < forcedInFlight w)%nat.

(** The error and the retry count go together: no error and no retry, or
    the failure text and at least one retry. *)
Definition alert_invariant (w : World) : Prop :=
  (error (ui w) = None ∧ retryCount (ui w) = 0%nat)
  ∨ (error (ui w) = Some fetch_failure_text ∧ (0 < retryCount (ui w))%nat).

End AnomalyListView.

Module LogViewerView.
Import LogViewer.

Section View.
Context {Json : Type}.

(** Lines 364-368 and 370-374: the two banners of the log container. *)
Definition errorBannerShown (s : State Json) : bool := connectionError s.

Definition waitingShown (s : State Json) : bool :=
  bool_decide (length (logs s) = 0%nat) && negb (connectionError s).

End View.

End LogViewerView.

Module Samples.

#[local] Existing Instance JSON.builtins.

(** What [JSON.parse] returns for [Stream.payload]. *)
Definition record : JSON.value :=
  JSON.Object [("timestamp", JSON.Number "1700000000"); ("message", JSON.Str "ok")].

(** A viewer that holds one record and has lost its connection. *)
Definition one_record_then_error : LogViewer.World JSON.value :=
  LogViewer.deliver (Stream.one_log ++ [LogViewer.ErrorEvent]) Stream.start.

End Samples.

(** * Properties of AnomalyList *)

Section AnomalyListFacts.
Import AnomalyList.

(** Removing the promise at [i] removes one from a count exactly when the
    promise is counted. *)
Lemma count_delete (f : Pending → bool) (l : list Pending) (i : nat) (p : Pending) :
  l !! i = Some p →
  length (List.filter f l) =
    ((if f p then 1 else 0) + length (List.filter f (delete i l)))%nat.
Proof.
  revert i. induction l as [|q l IH]; intros [|i] Hi; simplify_eq/=.
  - by destruct (f p).
  - specialize (IH i Hi). destruct (f q), (f p); simpl in *; lia.
Qed.

Lemma count_snoc (f : Pending → bool) (l : list Pending) (p : Pending) :
  length (List.filter f (l ++ [p])) =
    (length (List.filter f l) + (if f p then 1 else 0))%nat.
Proof.
  rewrite List.filter_app, length_app. simpl. by destruct (f p).
Qed.

Lemma fetchData_finally_slack b w :
  slackSending (ui (fetchData_finally b w)) = slackSending (ui w)
  ∧ inflight (fetchData_finally b w) = inflight w.
Proof. by destruct b. Qed.

Lemma fetchData_then_slack cl b now data w :
  slackSending (ui (fetchData_then cl b now data w)) = slackSending (ui w)
  ∧ inflight (fetchData_then cl b now data w) = inflight w.
Proof.
  unfold fetchData_then.
  repeat case_match; by destruct b.
Qed.

Lemma fetchData_catch_slack b w :
  slackSending (ui (fetchData_catch b w)) = slackSending (ui w)
  ∧ inflight (fetchData_catch b w) = inflight w.
Proof. by destruct b. Qed.

Lemma sync_invariant_mount now : sync_invariant (mount now).
Proof. reflexivity. Qed.

Lemma sync_invariant_step e w : sync_invariant w → sync_invariant (step e w).
Proof.
  unfold sync_invariant, syncsRunning, flagged. intros Hw.
  destruct e as [t now|now|now| | |i r now]; simpl.
  - unfold handleTabChange. case_decide; [done|]. simpl.
    rewrite !count_snoc. simpl. lia.
  - unfold intervalTick. simpl. rewrite count_snoc. simpl. lia.
  - unfold handleRefresh. destruct (error (ui w)); [|done]. simpl.
    rewrite count_snoc. simpl. lia.
  - unfold clickSend, sendDisabled.
    destruct (slackStatus (ui w)) as [st|]; [|done].
    destruct (slackSending (ui w)) eqn:Hs; simpl; [by rewrite Hs|].
    destruct (task_running st); simpl; [|by rewrite Hs].
    rewrite count_snoc. simpl. lia.
  - unfold clickAuto. destruct (slackStatus (ui w)); [|done]. simpl.
    rewrite count_snoc. simpl. lia.
  - unfold settle.
    destruct (inflight w !! i) as [p|] eqn:Hi; [|done].
    pose proof (count_delete isSync _ _ _ Hi) as Hc.
    destruct p as [cl b| |k|], r as [data| |st| |]; try done; simpl in Hc.
    + destruct (fetchData_then_slack cl b now data (settled i w)) as [-> ->].
      simpl. lia.
    + destruct (fetchData_catch_slack b (settled i w)) as [-> ->]. simpl. lia.
    + simpl. rewrite count_snoc. simpl. lia.
    + simpl. destruct (slackSending (ui w)); simpl in *; lia.
    + destruct k; simpl in *; try lia.
      destruct (slackSending (ui w)); simpl in *; lia.
    + destruct k; simpl in *; try lia.
      destruct (slackSending (ui w)); simpl in *; lia.
    + simpl. rewrite count_snoc. simpl. lia.
    + simpl. lia.
Qed.

Lemma run_snoc es e w : run (es ++ [e]) w = step e (run es w).
Proof. unfold run. by rewrite foldl_app. Qed.

Lemma sync_invariant_run now es : sync_invariant (run es (mount now)).
Proof.
  induction es as [|e es IH] using rev_ind.
  - apply sync_invariant_mount.
  - rewrite run_snoc. by apply sync_invariant_step.
Qed.

Lemma sends_le_syncs w : (sendsInFlight w ≤ syncsRunning w)%nat.
Proof.
  unfold sendsInFlight, syncsRunning.
  induction (inflight w) as [|p l IH]; [done|].
  destruct p as [| |[]|]; simpl; lia.
Qed.

(** C3. At most one notification send is in flight.  In every world the
    component reaches from its mount: there is at most one pending sink call;
    while one is pending the sending flag is set; while the flag is set a
    click on the send button changes nothing, so no second call is started or
    queued; a click on the enabled button sets the flag and starts the call in
    the same step; and the flag is cleared only when a promise of the running
    [syncToSlack] settles, either the sink call by failing or the status
    refresh that is awaited after the sink call completed. *)
Theorem C3_at_most_one_send_in_flight (now : Z) (es : list Event) :
  let w := run es (mount now) in
  (sendsInFlight w ≤ 1)%nat
  ∧ (sendsInFlight w = 1%nat → slackSending (ui w) = true)
  ∧ (slackSending (ui w) = true → step SendClick w = w)
  ∧ (sendDisabled (ui w) = false →
       slackSending (ui (step SendClick w)) = true
       ∧ inflight (step SendClick w) = (inflight w ++ [AwaitSend])%list)
  ∧ (∀ e, slackSending (ui w) = true → slackSending (ui (step e w)) = false →
       sendsInFlight (step e w) = 0%nat
       ∧ ∃ i r t, e = Settle i r t
           ∧ (inflight w !! i = Some AwaitSend ∧ r = Rejected
              ∨ inflight w !! i = Some (AwaitStatus FromSync) ∧ sendsInFlight w = 0%nat)).
Proof.
  intros w.
  pose proof (sync_invariant_run now es) as Hinv. fold w in Hinv.
  pose proof (sends_le_syncs w) as Hle.
  unfold sync_invariant, flagged in Hinv.
  split; [destruct (slackSending (ui w)); lia|].
  split; [destruct (slackSending (ui w)); [done|lia]|].
  split.
  { intros Hs. simpl. unfold clickSend, sendDisabled.
    destruct (slackStatus (ui w)); [|done]. by rewrite Hs. }
  split.
  { intros Hd. simpl. unfold clickSend. by rewrite Hd. }
  intros e Hs He.
  assert (sendsInFlight (step e w) = 0%nat) as H0.
  { pose proof (sync_invariant_step e w) as Hstep.
    unfold sync_invariant, flagged in Hstep. rewrite Hinv, Hs, He in Hstep.
    specialize (Hstep eq_refl).
    pose proof (sends_le_syncs (step e w)). lia. }
  split; [done|].
  destruct e as [t0 t|t|t| | |i r t]; simpl in He.
  - unfold handleTabChange in He. case_decide; simpl in He; congruence.
  - simpl in He. congruence.
  - unfold handleRefresh in He. destruct (error (ui w)); simpl in He; congruence.
  - unfold clickSend, sendDisabled in He.
    destruct (slackStatus (ui w)); rewrite ?Hs in He; simpl in He; congruence.
  - unfold clickAuto in He. destruct (slackStatus (ui w)); simpl in He; congruence.
  - exists i, r, t. split; [done|].
    unfold settle in He.
    destruct (inflight w !! i) as [p|] eqn:Hi; [|congruence].
    pose proof (count_delete isSync _ _ _ Hi) as Hc.
    pose proof (count_delete isSend _ _ _ Hi) as Hd.
    fold (syncsRunning w) in Hc. fold (sendsInFlight w) in Hd.
    rewrite Hinv, Hs in Hc.
    destruct p as [cl b| |k|], r as [data| |st| |]; try congruence.
    + destruct (fetchData_then_slack cl b t data (settled i w)) as [Hf _].
      rewrite Hf in He. simpl in He. congruence.
    + destruct (fetchData_catch_slack b (settled i w)) as [Hf _].
      rewrite Hf in He. simpl in He. congruence.
    + simpl in He. congruence.
    + by left.
    + destruct k; simpl in He; try congruence. right. split; [done|].
      simpl in Hc, Hd.
      assert (length (List.filter isSend (delete i (inflight w)))
              ≤ length (List.filter isSync (delete i (inflight w))))%nat
        by apply (sends_le_syncs (settled i w)).
      lia.
    + destruct k; simpl in He; try congruence. right. split; [done|].
      simpl in Hc, Hd.
      assert (length (List.filter isSend (delete i (inflight w)))
              ≤ length (List.filter isSync (delete i (inflight w))))%nat
        by apply (sends_le_syncs (settled i w)).
      lia.
    + simpl in He. congruence.
    + simpl in He. congruence.
Qed.

(** *** What a fetch does when it resolves *)

Lemma ui_fetchData_finally b w :
  ui (fetchData_finally b w) = (if b then setLoading false (ui w) else ui w).
Proof. by destruct b. Qed.

Lemma elem_of_newRecords cl data item :
  item ∈ newRecords cl data ↔ item ∈ data ∧ id item ∉ cl_seenRecordIds cl.
Proof. unfold newRecords. rewrite list_elem_of_filter. tauto. Qed.

Lemma elem_of_currentRecordIds data x :
  x ∈ currentRecordIds data ↔ ∃ item, item ∈ data ∧ id item = x.
Proof.
  unfold currentRecordIds.
  rewrite elem_of_list_to_set, list_elem_of_In, in_map_iff.
  setoid_rewrite <- list_elem_of_In.
  split; intros (item & H1 & H2); eauto.
Qed.

(** The fields a resolved fetch leaves in the state, by the branch it takes. *)
Lemma display_fetchData_then cl b t data w :
  display (fetchData_then cl b t data w) =
    if bool_decide (0 < length (newRecords cl data))%nat || b
    then mkDisplay data None (seenRecordIds (ui w) ∪ currentRecordIds data) (Some t)
    else display w.
Proof.
  unfold fetchData_then, display.
  rewrite ui_fetchData_finally.
  destruct (bool_decide (0 < length (newRecords cl data))%nat), b; reflexivity.
Qed.

(** A fetch that was given the seen ids of the state it resolves in and finds
    no id outside them changes nothing of what is displayed, unless forced. *)
Lemma poll_without_new_ids cl t data w :
  (∀ item, item ∈ data → id item ∈ cl_seenRecordIds cl) →
  display (fetchData_then cl false t data w) = display w.
Proof.
  intros Hseen. rewrite display_fetchData_then.
  assert (newRecords cl data = []) as ->; [|done].
  apply elem_of_nil_inv. intros item [Hin Hnew]%elem_of_newRecords.
  by apply Hnew, Hseen.
Qed.

(** An id outside the seen ids the fetch was given is found new and is in the
    seen ids afterwards. *)
Lemma unseen_id_is_recorded cl b t data w item :
  item ∈ data → id item ∉ cl_seenRecordIds cl →
  item ∈ newRecords cl data
  ∧ id item ∈ seenRecordIds (ui (fetchData_then cl b t data w)).
Proof.
  intros Hin Hnew.
  assert (item ∈ newRecords cl data) as Hfound by by apply elem_of_newRecords.
  split; [done|].
  change (id item ∈ shown_seen (display (fetchData_then cl b t data w))).
  rewrite display_fetchData_then.
  destruct (newRecords cl data) as [|x l] eqn:Hl; [by apply elem_of_nil in Hfound|].
  simpl. apply elem_of_union_r, elem_of_currentRecordIds. eauto.
Qed.

(** What one event does to the seen ids. *)
Lemma step_seen e w :
  (seenRecordIds (ui w) ⊆ seenRecordIds (ui (step e w))
   ∧ (seenRecordIds (ui (step e w)) = seenRecordIds (ui w)
      ∨ ∃ i cl b data t,
          e = Settle i (FetchOk data) t
          ∧ inflight w !! i = Some (AwaitFetch cl b)
          ∧ seenRecordIds (ui (step e w))
            = seenRecordIds (ui w) ∪ currentRecordIds data))
  ∨ (∃ newValue t,
       e = TabClick newValue t ∧ newValue ≠ activeTab (ui w)
       ∧ seenRecordIds (ui (step e w)) = ∅).
Proof.
  assert (∀ w' : World, seenRecordIds (ui w') = seenRecordIds (ui w) →
    seenRecordIds (ui w) ⊆ seenRecordIds (ui w')
    ∧ (seenRecordIds (ui w') = seenRecordIds (ui w)
       ∨ ∃ i cl b data t,
           e = Settle i (FetchOk data) t
           ∧ inflight w !! i = Some (AwaitFetch cl b)
           ∧ seenRecordIds (ui w')
             = seenRecordIds (ui w) ∪ currentRecordIds data)) as Hsame.
  { intros w' ->. by split; [|left]. }
  destruct e as [v t|t|t| | |i r t]; simpl.
  - unfold handleTabChange. case_decide; [left; by apply Hsame|].
    right. by exists v, t.
  - left. by apply Hsame.
  - left. apply Hsame. unfold handleRefresh. by destruct (error (ui w)).
  - left. apply Hsame. unfold clickSend. by destruct (sendDisabled (ui w)).
  - left. apply Hsame. unfold clickAuto. by destruct (slackStatus (ui w)).
  - left. unfold settle.
    destruct (inflight w !! i) as [p|] eqn:Hi; [|by apply Hsame].
    destruct p as [cl b| |k|], r as [data| |st| |]; try by apply Hsame.
    + change (seenRecordIds (ui (fetchData_then cl b t data (settled i w))))
        with (shown_seen (display (fetchData_then cl b t data (settled i w)))).
      rewrite display_fetchData_then.
      destruct (_ || _); simpl; [|by apply Hsame].
      split; [apply union_subseteq_l|]. right. by exists i, cl, b, data, t.
    + apply Hsame. unfold fetchData_catch. rewrite ui_fetchData_finally.
      by destruct b.
    + apply Hsame. by destruct k.
    + apply Hsame. by destruct k.
Qed.

Lemma run_seen es w :
  no_tab_click es → seenRecordIds (ui w) ⊆ seenRecordIds (ui (run es w)).
Proof.
  revert w. induction es as [|e es IH]; intros w Hes; [done|].
  apply Forall_cons in Hes as [He Hes]. simpl.
  transitivity (seenRecordIds (ui (step e w))); [|by apply IH].
  destruct (step_seen e w) as [[Hsub _]|(v & t & -> & _)]; [done|].
  by destruct (He v t).
Qed.

(** An id in the seen ids a fetch was given is not found new, and so no
    fetch started after the id was recorded, in a run without a tab click,
    finds it new. *)
Lemma seen_id_is_not_new cl data item :
  item ∈ newRecords cl data → id item ∉ cl_seenRecordIds cl.
Proof. by intros [_ ?]%elem_of_newRecords. Qed.

Lemma fetch_started_later_skips_recorded_id x es w data item :
  x ∈ seenRecordIds (ui w) → no_tab_click es →
  item ∈ newRecords (render (ui (run es w))) data → id item ≠ x.
Proof.
  intros Hx Hes Hnew%seen_id_is_not_new Heq. apply Hnew. rewrite Heq. simpl.
  by apply (run_seen es w).
Qed.


(** C2, as the component has it.  The two tabs share one set of seen ids.
    A switch to the other tab, the restart of that tab, empties the set for
    either tab and leaves the status and the sending flag of the notification
    channel as they were; it starts a fetch and a status request, no send and
    no toggle.  And the seen ids change only on a tab switch or when a fetch
    resolves: no click on the channel's buttons and no answer or failure of
    its requests changes them. *)
Theorem C2_tab_switch_empties_the_shared_set
    (newValue : Tab) (now : Z) (w : World) :
  newValue ≠ activeTab (ui w) →
  let w' := reset (TabContext newValue) now w in
  (∀ t, held (TabContext t) w' = SeenIds ∅)
  ∧ held NotificationChannel w' = held NotificationChannel w
  ∧ inflight w' =
      (inflight w
       ++ [AwaitFetch (mkClosure newValue (seenRecordIds (ui w))) true;
           AwaitStatus FromEffect])%list
  ∧ (∀ e t, held (TabContext t) (step e w) ≠ held (TabContext t) w →
       (∃ v t', e = TabClick v t' ∧ v ≠ activeTab (ui w))
       ∨ (∃ i cl b data t',
            e = Settle i (FetchOk data) t'
            ∧ inflight w !! i = Some (AwaitFetch cl b))).
Proof.
  intros Hne. simpl. unfold handleTabChange. case_decide; [done|]. simpl.
  split; [done|]. split; [done|]. split; [by rewrite <- app_assoc|].
  intros e _ Hch.
  destruct (step_seen e w) as [[_ [Hsame|Hfetch]]|(v & t' & -> & Hv & _)].
  - destruct Hch. by rewrite Hsame.
  - right. destruct Hfetch as (i & cl & b & data & t' & -> & Hi & _). eauto 10.
  - left. eauto.
Qed.

Lemma C2_witness :
  unidentified ≠ activeTab (ui first_fetch_done)
  ∧ held (TabContext anomaly) (reset (TabContext unidentified) 3000 first_fetch_done)
    = SeenIds ∅
  ∧ held NotificationChannel (reset (TabContext unidentified) 3000 first_fetch_done)
    = held NotificationChannel first_fetch_done.
Proof.
  assert (unidentified ≠ activeTab (ui first_fetch_done)) as Hne by discriminate.
  split; [exact Hne|].
  destruct (C2_tab_switch_empties_the_shared_set unidentified 3000
              first_fetch_done Hne) as (Htabs & Hchannel & _).
  split; [exact (Htabs anomaly)|exact Hchannel].
Defined.

(** The claim fails for the two tabs: after the first fetch the seen ids
    held for the tab anomaly are {1}; the reset of the other context, the tab
    unidentified, leaves none of them. *)
Lemma C2_counterexample :
  TabContext unidentified ≠ TabContext anomaly
  ∧ held (TabContext anomaly) first_fetch_done = SeenIds {[ 1 ]}
  ∧ held (TabContext anomaly)
      (reset (TabContext unidentified) 3000 first_fetch_done)
    ≠ held (TabContext anomaly) first_fetch_done.
Proof.
  split; [discriminate|]. split; [by vm_compute|].
  intros Heq. vm_compute in Heq.
  injection Heq as Heq. discriminate Heq.
Qed.


(** C9. A fetch that fails leaves the data alone.  When the promise of a
    fetch rejects, the displayed records, the seen ids and the time of the
    last data update are what they were, the error is the fixed text, and the
    retry count is one more; and a fetch that resolves and updates the state,
    because it found a new record or was forced, sets the retry count to
    zero. *)
Theorem C9_fetch_failure_keeps_data
    (w : World) (i : nat) (cl : Closure) (b : bool) (t : Z) :
  inflight w !! i = Some (AwaitFetch cl b) →
  (let w' := settle i Rejected t w in
   anomalyParams (ui w') = anomalyParams (ui w)
   ∧ seenRecordIds (ui w') = seenRecordIds (ui w)
   ∧ lastDataUpdateTime (ui w') = lastDataUpdateTime (ui w)
   ∧ error (ui w') = Some fetch_failure_text
   ∧ retryCount (ui w') = S (retryCount (ui w)))
  ∧ (∀ data,
       newRecords cl data ≠ [] ∨ b = true →
       let w' := settle i (FetchOk data) t w in
       retryCount (ui w') = 0%nat
       ∧ error (ui w') = None
       ∧ anomalyParams (ui w') = data).
Proof.
  intros Hi. split.
  - simpl. unfold settle. rewrite Hi. unfold fetchData_catch.
    rewrite ui_fetchData_finally. destruct b; simpl; repeat split; lia.
  - intros data Hupd. simpl. unfold settle. rewrite Hi. unfold fetchData_then.
    rewrite ui_fetchData_finally.
    assert (bool_decide (0 < length (newRecords cl data))%nat || b = true) as ->.
    { destruct Hupd as [Hne| ->]; [|by rewrite orb_true_r].
      destruct (newRecords cl data); [done|].
      rewrite bool_decide_eq_true_2; [done|simpl; lia]. }
    by destruct (bool_decide _), b.
Qed.

Lemma C9_witness :
  inflight (mount 0) !! 0%nat = Some (AwaitFetch (render initialState) true)
  ∧ retryCount (ui (settle 0 Rejected 700 (mount 0))) = 1%nat
  ∧ error (ui (settle 0 Rejected 700 (mount 0))) = Some fetch_failure_text.
Proof.
  split; [reflexivity|].
  destruct (C9_fetch_failure_keeps_data (mount 0) 0 (render initialState) true 700
              eq_refl) as [(_ & _ & _ & He & Hr) _].
  split; [exact Hr|exact He].
Defined.

(** Two runs of the component from its mount.  In the first the fetches
    follow one another: the first fetch records id 1 and the poll after it
    finds nothing new and leaves the display alone.  In the second the status
    arrives, the send button is clicked, and a second click changes
    nothing while the sink call is pending. *)
Example poll_after_the_first_fetch :
  let w1 := run [Settle 0 (FetchOk [record1]) 500] (mount 0) in
  let w2 := run [IntervalTick 10000; Settle 1 (FetchOk [record1]) 10100] w1 in
  display w2 = display w1
  ∧ console w2 = [LogFound 1 anomaly; LogNoNew anomaly].
Proof. vm_compute. by split. Qed.

Example second_click_while_sending :
  let status := {| task_running := true;
                   auto_send_enabled := false;
                   sent_records_count := 0 |} in
  let w := run [Settle 1 (StatusOk (Some status)) 300; SendClick] (mount 0) in
  sendsInFlight w = 1%nat
  ∧ slackSending (ui w) = true
  ∧ step SendClick w = w
  ∧ slackSending (ui (step (Settle 1 Rejected 900) w)) = false.
Proof. vm_compute. by repeat split. Qed.

(** C1. A fetch that was started before an id was recorded counts the id
    as new again.  The first fetch is still pending when the interval fires;
    it resolves to record 1, which is counted as new and recorded; then the
    poll resolves to the same record, with the seen ids of the render that
    started it, and counts record 1 as new a second time. *)
Theorem C1_late_fetch_counts_a_seen_id_as_new :
  let w1 := run slow_first_fetch (mount 0) in
  let w2 := step late_poll w1 in
  console w1 = [LogFound 1 anomaly]
  ∧ seenRecordIds (ui w1) = {[ 1 ]}
  ∧ inflight w1 !! 1%nat = Some (AwaitFetch (mkClosure anomaly ∅) false)
  ∧ newRecords (mkClosure anomaly ∅) [record1] = [record1]
  ∧ console w2 = [LogFound 1 anomaly; LogFound 1 anomaly].
Proof. vm_compute. repeat split; reflexivity. Qed.

(** C5. A poll that was started before its records were seen updates the
    display although every id it fetched is seen by then: in the same run the
    late poll is not forced, every record it resolves to has its id in the
    seen ids, and the time of the last data update changes. *)
Theorem C5_late_poll_updates_the_display :
  let w1 := run slow_first_fetch (mount 0) in
  let w2 := step late_poll w1 in
  inflight w1 !! 1%nat = Some (AwaitFetch (mkClosure anomaly ∅) false)
  ∧ Forall (λ item, id item ∈ seenRecordIds (ui w1)) [record1]
  ∧ lastDataUpdateTime (ui w1) = Some 10500
  ∧ lastDataUpdateTime (ui w2) = Some 10600
  ∧ display w2 ≠ display w1.
Proof.
  split; [by vm_compute|].
  split; [repeat constructor; by vm_compute|].
  split; [by vm_compute|].
  split; [by vm_compute|].
  intros Heq. apply (f_equal shown_update_time) in Heq.
  vm_compute in Heq. discriminate.
Qed.

End AnomalyListFacts.

(** * Properties of LogViewer *)

Section LogViewerFacts.
Import LogViewer.
Context {Json : Type} `{!Builtins Json}.

Implicit Types (w : World Json) (es : list (Event)) (l k : list Json).

(** [slice] with a negative start keeps the last elements. *)
Lemma slice_negative (n : nat) l :
  slice (- Z.of_nat (S n)) l = drop (length l - S n) l.
Proof.
  unfold slice.
  destruct (Z.ltb_spec (- Z.of_nat (S n)) 0) as [_|?]; [|lia].
  f_equal. lia.
Qed.

Lemma drop_last_twice (n : nat) l k :
  drop (length (drop (length l - n) l ++ k) - n) (drop (length l - n) l ++ k)
  = drop (length (l ++ k) - n) (l ++ k).
Proof.
  rewrite !length_app, length_drop.
  destruct (decide (length l ≤ n)%nat) as [Hle|Hgt].
  - replace (length l - n)%nat with 0%nat by lia. simpl.
    f_equal. lia.
  - replace (length l - (length l - n) + length k - n)%nat with (length k) by lia.
    replace (length l + length k - n)%nat
      with ((length l - n) + length k)%nat by lia.
    rewrite <- drop_drop. f_equal.
    rewrite drop_app_le by lia. done.
Qed.

Lemma is_falsy data : falsy data = true ↔ data = "".
Proof. by destruct data. Qed.

(** No listener lets an exception out. *)
Lemma dispatch_returns e w : ∃ w', dispatch e w = Normal w'.
Proof.
  destruct e as [data|data| |value]; simpl; eauto.
  - unfold onLog. destruct (falsy data); simpl; eauto.
    destruct (JSON_parse data); simpl; eauto.
  - unfold onPing. destruct (JSON_parse data); simpl; eauto.
Qed.

(** The state a listener leaves depends on the state only, not on what the
    console holds. *)
Lemma dispatch_ui e w1 w2 w1' w2' :
  ui w1 = ui w2 → dispatch e w1 = Normal w1' → dispatch e w2 = Normal w2' →
  ui w1' = ui w2'.
Proof.
  intros Hui.
  destruct e as [data|data| |value]; simpl.
  - unfold onLog. destruct (falsy data); simpl.
    + intros [= <-] [= <-]. done.
    + destruct (JSON_parse data); simpl; intros [= <-] [= <-]; simpl;
        by rewrite ?Hui.
  - unfold onPing. destruct (JSON_parse data); simpl; intros [= <-] [= <-];
      simpl; by rewrite ?Hui.
  - intros [= <-] [= <-]. simpl. by rewrite Hui.
  - intros [= <-] [= <-]. simpl. by rewrite Hui.
Qed.

Lemma deliver_ui es w1 w2 :
  ui w1 = ui w2 → ui (deliver es w1) = ui (deliver es w2).
Proof.
  revert w1 w2. induction es as [|e es IH]; intros w1 w2 Hui; [done|]. simpl.
  destruct (dispatch_returns e w1) as [w1' H1].
  destruct (dispatch_returns e w2) as [w2' H2].
  rewrite H1, H2. apply IH. by eapply dispatch_ui.
Qed.

(** The buffer after a run of events, given the records [seen] the buffer
    was cut from before. *)
Lemma logs_deliver es : ∀ w (seen : list Json),
  logs (ui w) = drop (length seen - 100) seen →
  logs (ui (deliver es w))
  = drop (length (seen ++ delivered es) - 100) (seen ++ delivered es).
Proof.
  induction es as [|e es IH]; intros w seen Hw; simpl.
  - by rewrite app_nil_r.
  - destruct e as [data|data| |value]; simpl.
    + unfold onLog. destruct (falsy data); simpl; [by apply IH|].
      destruct (JSON_parse data) as [v|x]; simpl; [|by apply IH].
      rewrite (IH _ (seen ++ [v])%list).
      * by rewrite <- app_assoc.
      * simpl. change (-100) with (- Z.of_nat 100).
        rewrite slice_negative, Hw. apply drop_last_twice.
    + unfold onPing. destruct (JSON_parse data); simpl; by apply IH.
    + by apply IH.
    + by apply IH.
Qed.

(** C6. The buffer of the log viewer holds the last 100 records.  After
    every sequence of events the retained list is the sequence of the records
    delivered so far without all but its last 100, in delivery order, so it
    never holds more than 100 and the oldest are the ones dropped. *)
Theorem C6_log_buffer_keeps_the_last_100 es :
  let kept := logs (ui (deliver es (mkWorld initialState []))) in
  kept = drop (length (delivered es) - 100) (delivered es)
  ∧ (length kept ≤ 100)%nat
  ∧ length kept = Nat.min 100 (length (delivered es))
  ∧ kept `suffix_of` delivered es.
Proof.
  intros kept.
  assert (kept = drop (length (delivered es) - 100) (delivered es)) as Hk.
  { unfold kept. by rewrite (logs_deliver es _ []). }
  split; [done|]. rewrite Hk, length_drop.
  repeat split; [lia|lia|apply suffix_drop].
Qed.

(** C7, as the component has it.  A ['ping'] event never changes the logs
    or the filter and its listener returns; the connection error indicator is
    cleared when the payload of the ping parses and is left as it was when it
    does not, and then the console gets the line that says the ping did not
    parse.  Of all events only a ['log'] event changes the logs. *)
Theorem C7_ping_keeps_the_logs (data : string) w :
  (∃ w', onPing data w = Normal w'
     ∧ logs (ui w') = logs (ui w)
     ∧ filter (ui w') = filter (ui w)
     ∧ connectionError (ui w') =
         match JSON_parse data with
         | Normal _ => false
         | Throw _ => connectionError (ui w)
         end
     ∧ console w' =
         (console w ++
          [match JSON_parse data with
           | Normal _ => LogPing
           | Throw _ => ErrParsePing
           end])%list)
  ∧ (∀ e w', dispatch e w = Normal w' →
       logs (ui w') ≠ logs (ui w) → ∃ payload, e = LogEvent payload).
Proof.
  split.
  - unfold onPing. destruct (JSON_parse data); simpl; eauto 10.
  - intros e w' He Hne. destruct e as [payload|payload| |value]; [by eauto|..].
    + exfalso. apply Hne. revert He. unfold dispatch, onPing.
      destruct (JSON_parse payload); simpl; by intros [= <-].
    + exfalso. apply Hne. by injection He as <-.
    + exfalso. apply Hne. by injection He as <-.
Qed.

(** C8. A ['log'] event whose payload is empty or does not parse is
    skipped.  Its listener returns, the state of the component is the one
    before the event, one line on the console says why, and the events after
    it are handled as if it had not come. *)
Theorem C8_malformed_log_event_is_skipped (data : string) w :
  data = "" ∨ JSON_parse data = Throw SyntaxError →
  (∃ w', onLog data w = Normal w'
     ∧ ui w' = ui w
     ∧ console w' = (console w ++ [if falsy data then WarnEmptyData else ErrParseLog])%list)
  ∧ (∀ es, ui (deliver (LogEvent data :: es) w) = ui (deliver es w)).
Proof.
  intros Hbad.
  assert (∃ w', onLog data w = Normal w'
     ∧ ui w' = ui w
     ∧ console w' = (console w ++ [if falsy data then WarnEmptyData else ErrParseLog])%list)
    as (w' & Hon & Hui & Hc).
  { unfold onLog. destruct Hbad as [->|Hthrow]; simpl; [eauto|].
    destruct (falsy data); simpl; [eauto|]. rewrite Hthrow. simpl. eauto. }
  split; [eauto|].
  intros es. simpl. rewrite Hon. by apply deliver_ui.
Qed.

(** *** The filter *)

Lemma append_cons (a : ascii) (s t : string) :
  String a s ++ t = String a (s ++ t).
Proof. reflexivity. Qed.

Lemma append_empty (t : string) : "" ++ t = t.
Proof. reflexivity. Qed.

Lemma startsWith_spec (s search : string) :
  startsWith s search = true ↔ ∃ post, s = search ++ post.
Proof.
  revert s. induction search as [|b search IH]; intros s; simpl.
  - split; [by exists s|done].
  - destruct s as [|a s]; simpl.
    + split; [done|]. intros [post Hp]. by rewrite append_cons in Hp.
    + destruct (Ascii.eqb_spec a b) as [->|Hne].
      * rewrite IH. split; intros [post Hp]; exists post;
          rewrite append_cons in *; congruence.
      * split; [done|]. intros [post Hp]. rewrite append_cons in Hp. congruence.
Qed.

Lemma includes_spec (s search : string) :
  includes s search = true ↔ ∃ pre post, s = pre ++ search ++ post.
Proof.
  induction s as [|a s IH]; simpl.
  - rewrite orb_false_r, startsWith_spec. split.
    + intros [post Hp]. by exists "", post.
    + intros (pre & post & Hp). destruct pre; [by exists post|].
      by rewrite append_cons in Hp.
  - rewrite orb_true_iff, startsWith_spec, IH. split.
    + intros [[post Hp]|(pre & post & Hp)].
      * by exists "", post.
      * exists (String a pre), post. by rewrite append_cons, Hp.
    + intros (pre & post & Hp). destruct pre as [|c pre].
      * left. by exists post.
      * right. exists pre, post. rewrite append_cons in Hp. congruence.
Qed.

(** C10. The text filter is a view of the logs.  A record is shown exactly
    when the filter is empty or the lower-cased filter occurs in the
    lower-cased JSON text of the record; the list displayed is the list of
    the logs that are shown, in order; the empty filter shows every log; and
    typing into the filter leaves the logs as they are. *)
Theorem C10_filter_is_a_view (s : State Json) :
  (∀ entry,
     shown (filter s) entry = true ↔
     filter s = "" ∨
     ∃ pre post,
       toLowerCase (JSON_stringify entry) = pre ++ toLowerCase (filter s) ++ post)
  ∧ (∀ entry, entry ∈ visibleLogs s ↔ entry ∈ logs s ∧ shown (filter s) entry = true)
  ∧ visibleLogs s `sublist_of` logs s
  ∧ (filter s = "" → visibleLogs s = logs s)
  ∧ (∀ value w, ∃ w',
       handleFilterChange value w = Normal w'
       ∧ logs (ui w') = logs (ui w)
       ∧ filter (ui w') = value).
Proof.
  split; [|split; [|split; [|split]]].
  - intros entry. unfold shown.
    destruct (falsy (filter s)) eqn:Hf.
    + apply is_falsy in Hf. split; eauto.
    + rewrite includes_spec. split; [eauto|].
      intros [Hempty|?]; [|done]. apply is_falsy in Hempty. congruence.
  - intros entry. unfold visibleLogs.
    rewrite !list_elem_of_In, filter_In. done.
  - unfold visibleLogs. induction (logs s) as [|x l IH]; simpl; [done|].
    destruct (shown (filter s) x); by constructor.
  - intros Hempty. unfold visibleLogs, shown. rewrite Hempty. simpl.
    induction (logs s) as [|x l IH]; simpl; congruence.
  - intros value w. eexists. split; [reflexivity|]. done.
Qed.

End LogViewerFacts.

Section Examples.
Import LogViewer.
#[local] Existing Instance JSON.builtins.

Lemma C7_counterexample :
  connectionError (ui Stream.after_error) = true
  ∧ ¬ ∃ w', onPing "keepalive" Stream.after_error = Normal w'
            ∧ logs (ui w') = logs (ui Stream.after_error)
            ∧ connectionError (ui w') = false.
Proof.
  split; [reflexivity|].
  intros (w' & Hw' & _ & Hc).
  vm_compute in Hw'. injection Hw' as <-. discriminate Hc.
Qed.

Lemma C8_witness :
  ("{oops" = "" ∨ JSON_parse "{oops" = Throw SyntaxError)
  ∧ ui (deliver (LogEvent "{oops" :: Stream.one_log) Stream.start)
    = ui (deliver Stream.one_log Stream.start).
Proof.
  split; [by right|].
  apply (C8_malformed_log_event_is_skipped "{oops" Stream.start). by right.
Defined.

End Examples.

(** * More properties of AnomalyList *)

Section AnomalyListMore.
Import AnomalyList AnomalyListView.

(** *** Shared facts on the steps *)

Lemma reachable_mount now : reachable (mount now).
Proof. by exists now, []. Qed.

Lemma reachable_step e w : reachable w → reachable (step e w).
Proof.
  intros (now & es & ->). exists now, (es ++ [e])%list. by rewrite run_snoc.
Qed.

(** An invariant of the steps holds in every reachable world. *)
Lemma reachable_ind (P : World → Prop) :
  (∀ now, P (mount now)) → (∀ e w, P w → P (step e w)) →
  ∀ w, reachable w → P w.
Proof.
  intros Hmount Hstep w (now & es & ->).
  induction es as [|e es IH] using rev_ind; [apply Hmount|].
  rewrite run_snoc. by apply Hstep.
Qed.

Lemma settled_started p w :
  settled (started w) (await p w) = mkWorld (ui w) (inflight w) (console w).
Proof.
  unfold settled, await, started. simpl. f_equal.
  induction (inflight w) as [|q l IH]; [done|]. simpl. by rewrite IH.
Qed.

Lemma lookup_started (l : list Pending) p : (l ++ [p])%list !! length l = Some p.
Proof. by rewrite lookup_app_r, Nat.sub_diag. Qed.

Lemma count_positive (f : Pending → bool) (l : list Pending) :
  (0 < length (List.filter f l))%nat → ∃ i p, l !! i = Some p ∧ f p = true.
Proof.
  induction l as [|p l IH]; simpl; [lia|].
  destruct (f p) eqn:Hp.
  - intros _. by exists 0%nat, p.
  - intros (i & q & Hi & Hq)%IH. by exists (S i), q.
Qed.

(** The state a settled fetch leaves, field by field. *)
Lemma ui_fetchData_then cl b t data w :
  ui (fetchData_then cl b t data w) =
    if bool_decide (0 < length (newRecords cl data))%nat || b then
      let s :=
        setRetryCount (λ _, 0%nat)
          (setSeenRecordIds (λ prev, prev ∪ currentRecordIds data)
             (setLastDataUpdateTime (Some t)
                (setError None (setAnomalyParams data (ui w))))) in
      if b then setLoading false s else s
    else if b then setLoading false (ui w) else ui w.
Proof.
  unfold fetchData_then. rewrite ui_fetchData_finally.
  destruct (bool_decide (0 < length (newRecords cl data))%nat), b; reflexivity.
Qed.

Lemma ui_fetchData_catch b w :
  ui (fetchData_catch b w) =
    let s := setRetryCount (λ n, (n + 1)%nat)
               (setError (Some fetch_failure_text) (ui w)) in
    if b then setLoading false s else s.
Proof. unfold fetchData_catch. rewrite ui_fetchData_finally. by destruct b. Qed.

Lemma spinner_invariant_step e w : spinner_invariant w → spinner_invariant (step e w).
Proof.
  unfold spinner_invariant, forcedInFlight. intros Hw.
  destruct e as [v t|t|t| | |i r t]; simpl.
  - unfold handleTabChange. case_decide; [done|]. simpl. intros _.
    rewrite !count_snoc. simpl. lia.
  - done.
  - unfold handleRefresh. destruct (error (ui w)); [|done]. simpl. intros _.
    rewrite count_snoc. simpl. lia.
  - unfold clickSend. destruct (sendDisabled (ui w)); [done|]. simpl.
    rewrite count_snoc. simpl. intros ?%Hw. lia.
  - unfold clickAuto. destruct (slackStatus (ui w)); [|done]. simpl.
    rewrite count_snoc. simpl. intros ?%Hw. lia.
  - unfold settle.
    destruct (inflight w !! i) as [p|] eqn:Hi; [|done].
    pose proof (count_delete isForced _ _ _ Hi) as Hc.
    destruct p as [cl b| |k|], r as [data| |st| |]; try done; simpl in Hc.
    + rewrite ui_fetchData_then.
      destruct (fetchData_then_slack cl b t data (settled i w)) as [_ ->].
      destruct b; simpl; [by destruct (_ || _)|].
      destruct (_ || _); simpl; intros ?%Hw; lia.
    + rewrite ui_fetchData_catch.
      destruct (fetchData_catch_slack b (settled i w)) as [_ ->].
      destruct b; simpl; [done|]. intros ?%Hw. lia.
    + simpl. rewrite count_snoc. simpl. intros ?%Hw. lia.
    + simpl. intros ?%Hw. lia.
    + destruct k; simpl; intros ?%Hw; lia.
    + destruct k; simpl; intros ?%Hw; lia.
    + simpl. rewrite count_snoc. simpl. intros ?%Hw. lia.
    + simpl. intros ?%Hw. lia.
Qed.

(** X1. The spinner is shown only while a forced fetch is pending: in every
    world the component reaches, when the main view is the spinner some
    pending promise is a fetch that was called with [forceUpdate]. *)
Theorem X1_spinner_needs_a_forced_fetch (w : World) :
  reachable w → mainView (ui w) = Spinner →
  ∃ i cl, inflight w !! i = Some (AwaitFetch cl true).
Proof.
  intros Hw Hview.
  assert (spinner_invariant w) as Hinv.
  { clear Hview. revert w Hw. apply reachable_ind.
    - intros now _. vm_compute. lia.
    - apply spinner_invariant_step. }
  assert (loading (ui w) = true) as Hl.
  { unfold mainView in Hview. destruct (loading (ui w)); [done|].
    by destruct (bool_decide _). }
  destruct (count_positive isForced _ (Hinv Hl)) as (i & p & Hi & Hp).
  destruct p as [cl [] | | |]; try done. by exists i, cl.
Qed.

Lemma X1_witness :
  reachable (mount 0) ∧ mainView (ui (mount 0)) = Spinner
  ∧ ∃ i cl, inflight (mount 0) !! i = Some (AwaitFetch cl true).
Proof.
  split; [apply reachable_mount|]. split; [reflexivity|].
  apply (X1_spinner_needs_a_forced_fetch (mount 0));
    [apply reachable_mount|reflexivity].
Defined.

Lemma alert_invariant_step e w : alert_invariant w → alert_invariant (step e w).
Proof.
  unfold alert_invariant. intros Hw.
  destruct e as [v t|t|t| | |i r t]; simpl.
  - unfold handleTabChange. case_decide; exact Hw.
  - exact Hw.
  - unfold handleRefresh. destruct (error (ui w)) eqn:He; simpl; rewrite ?He; exact Hw.
  - unfold clickSend. by destruct (sendDisabled (ui w)).
  - unfold clickAuto. by destruct (slackStatus (ui w)).
  - unfold settle.
    destruct (inflight w !! i) as [p|] eqn:Hi; [|done].
    destruct p as [cl b| |k|], r as [data| |st| |]; try done.
    + rewrite ui_fetchData_then.
      destruct (_ || _), b; simpl; auto.
    + rewrite ui_fetchData_catch. right. destruct b; simpl; split; try done; lia.
    + by destruct k.
    + by destruct k.
Qed.

(** X2. The error alert and the retry count go together.  In every world
    the component reaches the error is either absent, and the retry count is
    zero, or the fixed failure text, and the retry count is positive; so the
    alert with the Retry button is shown exactly when the retry count is not
    zero. *)
Theorem X2_alert_shown_iff_retries (w : World) :
  reachable w →
  alert_invariant w
  ∧ alertShown (ui w) = bool_decide (0 < retryCount (ui w))%nat.
Proof.
  intros Hw.
  assert (alert_invariant w) as Hinv.
  { revert w Hw. apply reachable_ind.
    - intros now. by left.
    - apply alert_invariant_step. }
  split; [done|]. unfold alertShown.
  destruct Hinv as [[-> ->]|[-> Hr]]; [done|].
  simpl. by rewrite bool_decide_eq_true_2.
Qed.

Lemma X2_witness :
  reachable (step (Settle 0 Rejected 900) (mount 0))
  ∧ alertShown (ui (step (Settle 0 Rejected 900) (mount 0))) = true.
Proof.
  assert (reachable (step (Settle 0 Rejected 900) (mount 0))) as Hr
    by apply reachable_step, reachable_mount.
  split; [exact Hr|].
  destruct (X2_alert_shown_iff_retries _ Hr) as [_ ->]. reflexivity.
Defined.

Lemma displayed_seen_step e w :
  (∀ newValue t, e ≠ TabClick newValue t) →
  displayed_seen w → displayed_seen (step e w).
Proof.
  unfold displayed_seen. intros Hne Hw.
  destruct e as [v t|t|t| | |i r t]; simpl.
  - by destruct (Hne v t).
  - done.
  - unfold handleRefresh. by destruct (error (ui w)).
  - unfold clickSend. by destruct (sendDisabled (ui w)).
  - unfold clickAuto. by destruct (slackStatus (ui w)).
  - unfold settle.
    destruct (inflight w !! i) as [p|] eqn:Hi; [|done].
    destruct p as [cl b| |k|], r as [data| |st| |]; try done.
    + rewrite ui_fetchData_then.
      destruct (_ || _), b; simpl; try done;
        intros item Hin; apply elem_of_union_r, elem_of_currentRecordIds; eauto.
    + rewrite ui_fetchData_catch. by destruct b.
    + by destruct k.
    + by destruct k.
Qed.

(** X3. What is displayed has been recorded.  If every displayed record has
    its id among the seen ids, this stays so over every run of events in which
    no tab is clicked; it is so when the component mounts. *)
Theorem X3_displayed_records_are_seen (w : World) (es : list Event) :
  displayed_seen w → no_tab_click es → displayed_seen (run es w).
Proof.
  revert w. induction es as [|e es IH]; intros w Hw Hes; [done|].
  apply Forall_cons in Hes as [He Hes]. simpl.
  apply IH; [|done]. by apply displayed_seen_step.
Qed.

Lemma X3_witness :
  displayed_seen (mount 0)
  ∧ no_tab_click [Settle 0 (FetchOk [record1]) 500; IntervalTick 10000]
  ∧ displayed_seen
      (run [Settle 0 (FetchOk [record1]) 500; IntervalTick 10000] (mount 0)).
Proof.
  assert (displayed_seen (mount 0)) as H0.
  { intros item Hin. by apply elem_of_nil in Hin. }
  assert (no_tab_click [Settle 0 (FetchOk [record1]) 500; IntervalTick 10000])
    as Hes by (repeat constructor; discriminate).
  split; [exact H0|]. split; [exact Hes|].
  exact (X3_displayed_records_are_seen _ _ H0 Hes).
Defined.


(** *** Handlers followed by the settlement of the fetch they start *)

Lemma newRecords_nil cl data :
  (∀ item, item ∈ data → id item ∈ cl_seenRecordIds cl) → newRecords cl data = [].
Proof.
  intros Hseen. apply elem_of_nil_inv.
  intros item [Hin Hnew]%elem_of_newRecords. by apply Hnew, Hseen.
Qed.

(** Settling the promise an [await] has just added. *)
Lemma settle_started_fetch cl b data t w :
  settle (started w) (FetchOk data) t (await (AwaitFetch cl b) w)
  = fetchData_then cl b t data (mkWorld (ui w) (inflight w) (console w)).
Proof.
  unfold settle.
  assert (inflight (await (AwaitFetch cl b) w) !! started w
          = Some (AwaitFetch cl b)) as -> by apply lookup_started.
  by rewrite settled_started.
Qed.

Lemma poll_unfold tick done data w :
  poll tick done data w =
    fetchData_then (render (ui w)) false done data
      (mkWorld (setLoading false (setLastCheckTime (Some tick) (ui w)))
         (inflight w) (console w)).
Proof.
  unfold poll. simpl. unfold intervalTick, fetchData_call. simpl.
  apply (settle_started_fetch (render (ui w)) false data done
           (onUi (setLoading false) (onUi (setLastCheckTime (Some tick)) w))).
Qed.

Lemma display_poll tick done data w :
  display (poll tick done data w) =
    if bool_decide (0 < length (newRecords (render (ui w)) data))%nat
    then mkDisplay data None (seenRecordIds (ui w) ∪ currentRecordIds data) (Some done)
    else display w.
Proof.
  rewrite poll_unfold, display_fetchData_then. by rewrite orb_false_r.
Qed.

(** X4. Polls that follow one another are idempotent.  A poll that runs
    from the tick of the interval to the settlement of its fetch leaves the
    pending promises as they were, and a second such poll that resolves to the
    same records leaves the displayed records, the error, the seen ids and the
    time of the last data update as the first poll left them. *)
Theorem X4_polls_in_sequence_are_idempotent
    (t1 t2 t3 t4 : Z) (data : list Item) (w : World) :
  let w1 := poll t1 t2 data w in
  inflight w1 = inflight w
  ∧ display (poll t3 t4 data w1) = display w1
  ∧ newRecords (render (ui w1)) data = [].
Proof.
  intros w1.
  assert (inflight w1 = inflight w) as Hin.
  { unfold w1. rewrite poll_unfold.
    by destruct (fetchData_then_slack (render (ui w)) false t2 data
      (mkWorld (setLoading false (setLastCheckTime (Some t1) (ui w)))
         (inflight w) (console w))) as [_ ->]. }
  assert (newRecords (render (ui w1)) data = []) as Hnil.
  { apply newRecords_nil. intros item Hitem.
    change (id item ∈ shown_seen (display w1)).
    unfold w1. rewrite display_poll.
    destruct (bool_decide (0 < length (newRecords (render (ui w)) data))%nat) eqn:Hb.
    - simpl. apply elem_of_union_r, elem_of_currentRecordIds. eauto.
    - simpl. destruct (decide (id item ∈ seenRecordIds (ui w))) as [|Hnew]; [done|].
      apply bool_decide_eq_false in Hb.
      assert (item ∈ newRecords (render (ui w)) data) as Hfound
        by by apply elem_of_newRecords.
      destruct (newRecords (render (ui w)) data); [by apply elem_of_nil in Hfound|].
      simpl in Hb. lia. }
  split; [done|]. split; [|done].
  by rewrite display_poll, Hnil.
Qed.




Lemma tabclick_inflight newValue t w :
  newValue ≠ activeTab (ui w) →
  inflight (step (TabClick newValue t) w)
  = ((inflight w ++ [AwaitFetch (mkClosure newValue (seenRecordIds (ui w))) true])
       ++ [AwaitStatus FromEffect])%list.
Proof. intros Hne. simpl. unfold handleTabChange. by case_decide. Qed.

Lemma tabclick_ui newValue t w :
  newValue ≠ activeTab (ui w) →
  ui (step (TabClick newValue t) w)
  = setLoading true
      (setSeenRecordIds (λ _, ∅)
         (setLastCheckTime (Some t) (setActiveTab newValue (ui w)))).
Proof. intros Hne. simpl. unfold handleTabChange. by case_decide. Qed.






(** *** The notification channel *)

(** X8. The sending flag is never stuck.  In every world the component
    reaches with the flag set, a promise of the running [syncToSlack] is
    pending, the sink call or the status refresh after it.  Whatever the sink
    answers, the flag is cleared at once (rejection) or the status refresh is
    awaited next (success); and whatever the status request answers, the flag
    is cleared. *)
Theorem X8_sending_flag_is_cleared (w : World) :
  reachable w → slackSending (ui w) = true →
  (∃ i, inflight w !! i = Some AwaitSend
        ∨ inflight w !! i = Some (AwaitStatus FromSync))
  ∧ (∀ i t, inflight w !! i = Some AwaitSend →
       slackSending (ui (settle i Rejected t w)) = false
       ∧ inflight (settle i SendOk t w)
         = (delete i (inflight w) ++ [AwaitStatus FromSync])%list)
  ∧ (∀ (w1 : World) i t r,
       inflight w1 !! i = Some (AwaitStatus FromSync) →
       r = Rejected ∨ (∃ status, r = StatusOk status) →
       slackSending (ui (settle i r t w1)) = false).
Proof.
  intros (now & es & ->) Hs.
  pose proof (sync_invariant_run now es) as Hinv.
  unfold sync_invariant, flagged, syncsRunning in Hinv. rewrite Hs in Hinv.
  split; [|split].
  - destruct (count_positive isSync (inflight (run es (mount now))))
      as (i & p & Hi & Hp); [lia|].
    exists i. destruct p as [| |[]|]; try done; auto.
  - intros i t Hi. unfold settle. by rewrite Hi.
  - intros w1 i t r Hi [->|[status ->]]; unfold settle; by rewrite Hi.
Qed.

Lemma X8_witness :
  let status := {| task_running := true;
                   auto_send_enabled := false;
                   sent_records_count := 0 |} in
  let w := run [Settle 1 (StatusOk (Some status)) 300; SendClick] (mount 0) in
  reachable w ∧ slackSending (ui w) = true
  ∧ ∃ i, inflight w !! i = Some AwaitSend
         ∨ inflight w !! i = Some (AwaitStatus FromSync).
Proof.
  intros status w.
  assert (reachable w) as Hr by (by exists 0, [Settle 1 (StatusOk (Some status)) 300; SendClick]).
  split; [exact Hr|]. split; [reflexivity|].
  exact (proj1 (X8_sending_flag_is_cleared w Hr eq_refl)).
Defined.

Lemma step_slackStatus e w :
  slackStatus (ui (step e w)) =
    match e with
    | Settle i (StatusOk status) _ =>
        match inflight w !! i with
        | Some (AwaitStatus _) => status
        | _ => slackStatus (ui w)
        end
    | _ => slackStatus (ui w)
    end.
Proof.
  destruct e as [v t|t|t| | |i r t]; simpl.
  - unfold handleTabChange. by case_decide.
  - done.
  - unfold handleRefresh. by destruct (error (ui w)).
  - unfold clickSend. by destruct (sendDisabled (ui w)).
  - unfold clickAuto. destruct (slackStatus (ui w)) eqn:He; simpl; by rewrite ?He.
  - unfold settle.
    destruct (inflight w !! i) as [p|] eqn:Hi; [|by destruct r].
    destruct p as [cl b| |k|], r as [data| |st| |]; try done.
    + rewrite ui_fetchData_then. by destruct (_ || _), b.
    + rewrite ui_fetchData_catch. by destruct b.
    + by destruct k.
    + by destruct k.
Qed.

(** X9. The held status is what the last status request resolved to.  An
    event changes it only when a status request resolves, and then to what
    arrived, null included; a failed status request, a failed send and a
    failed toggle keep it.  So a held status survives every run in which no
    status request resolves to null; and while none is held the panel is not
    rendered and the clicks on its two buttons change nothing. *)
Theorem X9_status_is_what_last_arrived (e : Event) (w : World) :
  (slackStatus (ui (step e w)) =
     match e with
     | Settle i (StatusOk status) _ =>
         match inflight w !! i with
         | Some (AwaitStatus _) => status
         | _ => slackStatus (ui w)
         end
     | _ => slackStatus (ui w)
     end)
  ∧ (∀ es, Forall (λ e, ∀ i t, e ≠ Settle i (StatusOk None) t) es →
       is_Some (slackStatus (ui w)) →
       is_Some (slackStatus (ui (run es w))))
  ∧ (slackStatus (ui w) = None →
       step SendClick w = w ∧ step AutoClick w = w).
Proof.
  split; [apply step_slackStatus|]. split.
  - intros es. revert w. induction es as [|e' es IH]; intros w Hes Hw; [done|].
    apply Forall_cons in Hes as [He' Hes]. simpl. apply IH; [done|].
    rewrite step_slackStatus.
    destruct e' as [| | | | |i [|  |[status|]| |] t]; try done.
    + by destruct (inflight w !! i) as [[]|].
    + by destruct (He' i t).
  - intros Hnone. simpl. unfold clickSend, sendDisabled, clickAuto.
    by rewrite Hnone.
Qed.

(** X10. A send is started only from the enabled button.  If an event
    raises the number of pending sink calls, it is a click on the send
    button, the flag was not set, and the status held says the task is
    running. *)
Theorem X10_send_needs_the_running_task (e : Event) (w : World) :
  (sendsInFlight w < sendsInFlight (step e w))%nat →
  e = SendClick
  ∧ slackSending (ui w) = false
  ∧ ∃ status, slackStatus (ui w) = Some status ∧ task_running status = true.
Proof.
  unfold sendsInFlight.
  destruct e as [v t|t|t| | |i r t]; simpl.
  - unfold handleTabChange. case_decide; [lia|]. simpl.
    rewrite !count_snoc. simpl. lia.
  - rewrite count_snoc. simpl. lia.
  - unfold handleRefresh. destruct (error (ui w)); [|lia]. simpl.
    rewrite count_snoc. simpl. lia.
  - unfold clickSend, sendDisabled.
    destruct (slackStatus (ui w)) as [status|]; [|lia].
    destruct (slackSending (ui w)); [simpl; lia|].
    destruct (task_running status) eqn:Ht; [|simpl; lia].
    intros _. eauto.
  - unfold clickAuto. destruct (slackStatus (ui w)); [|lia]. simpl.
    rewrite count_snoc. simpl. lia.
  - unfold settle.
    destruct (inflight w !! i) as [p|] eqn:Hi; [|lia].
    pose proof (count_delete isSend _ _ _ Hi) as Hc.
    destruct p as [cl b| |k|], r as [data| |st| |]; try lia; simpl in Hc.
    + destruct (fetchData_then_slack cl b t data (settled i w)) as [_ ->].
      simpl. lia.
    + destruct (fetchData_catch_slack b (settled i w)) as [_ ->]. simpl. lia.
    + simpl. rewrite count_snoc. simpl. lia.
    + simpl. lia.
    + destruct k; simpl; lia.
    + destruct k; simpl; lia.
    + simpl. rewrite count_snoc. simpl. lia.
    + simpl. lia.
Qed.

Lemma X10_witness :
  let status := {| task_running := true;
                   auto_send_enabled := false;
                   sent_records_count := 0 |} in
  let w := run [Settle 1 (StatusOk (Some status)) 300] (mount 0) in
  (sendsInFlight w < sendsInFlight (step SendClick w))%nat
  ∧ slackSending (ui w) = false.
Proof.
  intros status w.
  assert (sendsInFlight w < sendsInFlight (step SendClick w))%nat as Hlt
    by (vm_compute; lia).
  split; [exact Hlt|].
  exact (proj1 (proj2 (X10_send_needs_the_running_task SendClick w Hlt))).
Defined.

(** X11. Only fetches and tab switches change the list.  If an event
    changes the displayed records, the error, the seen ids or the time of the
    last data update, it is a switch to the other tab or the settlement of a
    fetch; the interval, the buttons, and every answer of the notification
    channel, failures included, leave them as they were. *)
Theorem X11_only_fetches_and_switches_change_the_list (e : Event) (w : World) :
  display (step e w) ≠ display w →
  (∃ newValue t, e = TabClick newValue t ∧ newValue ≠ activeTab (ui w))
  ∨ (∃ i cl b r t,
       e = Settle i r t
       ∧ inflight w !! i = Some (AwaitFetch cl b)
       ∧ (r = Rejected ∨ ∃ data, r = FetchOk data)).
Proof.
  intros Hne.
  destruct e as [v t|t|t| | |i r t]; simpl in Hne.
  - left. exists v, t. split; [done|]. intros Heq. apply Hne.
    unfold handleTabChange. by case_decide.
  - by destruct Hne.
  - destruct Hne. unfold handleRefresh. by destruct (error (ui w)).
  - destruct Hne. unfold clickSend. by destruct (sendDisabled (ui w)).
  - destruct Hne. unfold clickAuto. by destruct (slackStatus (ui w)) eqn:He.
  - right. unfold settle in Hne.
    destruct (inflight w !! i) as [p|] eqn:Hi; [|done].
    destruct p as [cl b| |k|], r as [data| |st| |]; try done.
    + exists i, cl, b, (FetchOk data), t. eauto.
    + exists i, cl, b, Rejected, t. eauto.
    + destruct Hne. by destruct k.
    + destruct Hne. by destruct k.
Qed.

Lemma X11_witness :
  display (step late_poll (run slow_first_fetch (mount 0)))
  ≠ display (run slow_first_fetch (mount 0))
  ∧ ∃ i cl b r t,
      late_poll = Settle i r t
      ∧ inflight (run slow_first_fetch (mount 0)) !! i = Some (AwaitFetch cl b)
      ∧ (r = Rejected ∨ ∃ data, r = FetchOk data).
Proof.
  assert (display (step late_poll (run slow_first_fetch (mount 0)))
          ≠ display (run slow_first_fetch (mount 0))) as Hne.
  { intros Heq. apply (f_equal shown_update_time) in Heq.
    vm_compute in Heq. discriminate. }
  split; [exact Hne|].
  destruct (X11_only_fetches_and_switches_change_the_list late_poll _ Hne)
    as [(v & t & Hv & _)|H]; [discriminate Hv|exact H].
Defined.


(** X17. A poll takes the spinner away from a pending forced fetch.  After
    a click on the other tab, when the interval fires before the fetch of the
    click has settled, the spinner is off and the records of the previous tab,
    if there are any, are displayed under the new tab, while that fetch is
    still pending. *)
Theorem X17_poll_hides_the_spinner_of_a_switch
    (newValue : Tab) (t1 t2 : Z) (w : World) :
  newValue ≠ activeTab (ui w) → anomalyParams (ui w) ≠ [] →
  let w' := run [TabClick newValue t1; IntervalTick t2] w in
  mainView (ui w') = Params (anomalyParams (ui w)) newValue
  ∧ forcedInFlight w' = S (forcedInFlight w).
Proof.
  intros Hne Hl. simpl.
  pose proof (tabclick_inflight newValue t1 w Hne) as Hin.
  pose proof (tabclick_ui newValue t1 w Hne) as Hui.
  simpl in Hin, Hui.
  unfold intervalTick, fetchData_call, forcedInFlight, mainView. simpl.
  rewrite Hin, Hui. simpl.
  split.
  - destruct (anomalyParams (ui w)); [done|]. reflexivity.
  - rewrite !count_snoc. simpl. lia.
Qed.

Lemma X17_witness :
  let w := run [Settle 0 (FetchOk [record1]) 500] (mount 0) in
  unidentified ≠ activeTab (ui w) ∧ anomalyParams (ui w) ≠ []
  ∧ mainView (ui (run [TabClick unidentified 3000; IntervalTick 13000] w))
    = Params [record1] unidentified.
Proof.
  intros w.
  assert (unidentified ≠ activeTab (ui w)) as Hne by discriminate.
  assert (anomalyParams (ui w) ≠ []) as Hl by discriminate.
  split; [exact Hne|]. split; [exact Hl|].
  exact (proj1 (X17_poll_hides_the_spinner_of_a_switch unidentified 3000 13000
                  w Hne Hl)).
Defined.

End AnomalyListMore.

(** * More properties of LogViewer *)

Section LogViewerMore.
Import LogViewer LogViewerView.
Context {Json : Type} `{!Builtins Json}.

Implicit Types (w : World Json) (es : list Event).

Lemma onLog_parsed (data : string) (v : Json) w :
  data ≠ "" → JSON_parse data = Normal v →
  onLog data w
  = Normal (setLogs (λ prevLogs, slice (-100) (prevLogs ++ [v])) w).
Proof.
  intros Hne Hv. unfold onLog.
  destruct (falsy data) eqn:Hf; [by apply is_falsy in Hf|].
  by rewrite Hv.
Qed.

Lemma slice_last_100 (l : list Json) (v : Json) :
  (length l ≤ 100)%nat →
  slice (-100) (l ++ [v])
  = if decide (length l < 100)%nat then (l ++ [v])%list else (drop 1 l ++ [v])%list.
Proof.
  intros Hle. change (-100) with (- Z.of_nat 100). rewrite slice_negative.
  rewrite length_app. simpl.
  case_decide.
  - by replace (length l + 1 - 100)%nat with 0%nat by lia.
  - replace (length l + 1 - 100)%nat with 1%nat by lia.
    rewrite drop_app_le by lia. done.
Qed.

(** X12. A log event appends its record and, when the buffer is full,
    drops the oldest one.  For a payload that is not empty and parses, on a
    buffer of at most 100 records: below 100 the record is appended; at 100
    the first record is dropped and the record appended; either way the
    record is the last of the buffer, and the filter and the connection error
    indicator are untouched. *)
Theorem X12_log_event_appends_and_drops_the_oldest
    (data : string) (v : Json) w :
  data ≠ "" → JSON_parse data = Normal v → (length (logs (ui w)) ≤ 100)%nat →
  ∃ w', onLog data w = Normal w'
    ∧ logs (ui w') =
        (if decide (length (logs (ui w)) < 100)%nat
         then logs (ui w) ++ [v] else drop 1 (logs (ui w)) ++ [v])%list
    ∧ last (logs (ui w')) = Some v
    ∧ filter (ui w') = filter (ui w)
    ∧ connectionError (ui w') = connectionError (ui w)
    ∧ console w' = console w.
Proof.
  intros Hne Hv Hle. eexists. split; [by apply onLog_parsed|]. simpl.
  rewrite slice_last_100 by done.
  repeat split. case_decide; apply last_snoc.
Qed.

Lemma dispatch_length e w w' :
  dispatch e w = Normal w' → (length (logs (ui w)) ≤ 100)%nat →
  (length (logs (ui w)) ≤ length (logs (ui w')) ≤ 100)%nat.
Proof.
  intros He Hle. destruct e as [data|data| |value]; simpl in He.
  - unfold onLog in He. destruct (falsy data); simpl in He.
    + injection He as <-. simpl. lia.
    + destruct (JSON_parse data) as [v|x]; simpl in He; injection He as <-;
        simpl; [|lia].
      rewrite slice_last_100 by done.
      case_decide; rewrite length_app, ?length_drop; simpl; lia.
  - unfold onPing in He.
    destruct (JSON_parse data); simpl in He; injection He as <-; simpl; lia.
  - injection He as <-. simpl. lia.
  - injection He as <-. simpl. lia.
Qed.

(** X13. The number of retained records never goes down.  From a buffer of
    at most 100 records, over every sequence of events, the buffer holds at
    least as many records as before and at most 100; so once a record is
    held, the line that says the viewer waits for logs is not shown again. *)
Theorem X13_retained_count_never_decreases es w :
  (length (logs (ui w)) ≤ 100)%nat →
  (length (logs (ui w)) ≤ length (logs (ui (deliver es w))) ≤ 100)%nat
  ∧ (logs (ui w) ≠ [] → waitingShown (ui (deliver es w)) = false).
Proof.
  intros Hle.
  assert (length (logs (ui w)) ≤ length (logs (ui (deliver es w))) ≤ 100)%nat
    as Hlen.
  { revert w Hle. induction es as [|e es IH]; intros w Hle; simpl; [lia|].
    destruct (dispatch_returns e w) as [w' He]. rewrite He.
    pose proof (dispatch_length e w w' He Hle) as H1.
    specialize (IH w' (proj2 H1)). lia. }
  split; [done|]. intros Hne. unfold waitingShown.
  rewrite bool_decide_eq_false_2; [done|].
  destruct (logs (ui w)); [done|]. simpl in Hlen. lia.
Qed.

(** X14. Logs do not clear the connection error.  While the indicator is
    set it stays set over every sequence of events in which no ping payload
    parses, log events included; while it is clear it stays clear over every
    sequence without an error of the event source. *)
Theorem X14_connection_error_waits_for_a_ping es w :
  (connectionError (ui w) = true →
   Forall (λ e, ∀ data, e = PingEvent data → JSON_parse data = Throw SyntaxError) es →
   errorBannerShown (ui (deliver es w)) = true)
  ∧ (connectionError (ui w) = false →
     Forall (λ e, e ≠ ErrorEvent) es →
     errorBannerShown (ui (deliver es w)) = false).
Proof.
  unfold errorBannerShown. split.
  - revert w. induction es as [|e es IH]; intros w Hw Hes; [done|].
    apply Forall_cons in Hes as [He Hes]. simpl.
    destruct (dispatch_returns e w) as [w' Hd]. rewrite Hd.
    apply IH; [|done].
    destruct e as [data|data| |value]; simpl in Hd.
    + unfold onLog in Hd. destruct (falsy data); simpl in Hd;
        [by injection Hd as <-|].
      destruct (JSON_parse data); simpl in Hd; by injection Hd as <-.
    + unfold onPing in Hd. rewrite (He data eq_refl) in Hd. simpl in Hd.
      by injection Hd as <-.
    + by injection Hd as <-.
    + by injection Hd as <-.
  - revert w. induction es as [|e es IH]; intros w Hw Hes; [done|].
    apply Forall_cons in Hes as [He Hes]. simpl.
    destruct (dispatch_returns e w) as [w' Hd]. rewrite Hd.
    apply IH; [|done].
    destruct e as [data|data| |value]; simpl in Hd; [..|done|].
    + unfold onLog in Hd. destruct (falsy data); simpl in Hd;
        [by injection Hd as <-|].
      destruct (JSON_parse data); simpl in Hd; by injection Hd as <-.
    + unfold onPing in Hd.
      destruct (JSON_parse data); simpl in Hd; by injection Hd as <-.
    + by injection Hd as <-.
Qed.

Lemma append_assoc (a b c : string) : (a ++ b) ++ c = a ++ b ++ c.
Proof.
  induction a as [|x a IH]; [done|]. by rewrite !append_cons, IH.
Qed.

Lemma filter_sublist (p q : Json → bool) (l : list Json) :
  (∀ x, p x = true → q x = true) →
  List.filter p l `sublist_of` List.filter q l.
Proof.
  intros Hpq. induction l as [|x l IH]; simpl; [done|].
  destruct (p x) eqn:Hp.
  - rewrite (Hpq x Hp). by constructor.
  - destruct (q x); [by constructor|done].
Qed.

(** X15. A longer filter shows fewer records.  If the lower-cased text of
    a filter occurs in the lower-cased text of a second filter that is not
    empty, the logs shown under the second are, in order, among those shown
    under the first. *)
Theorem X15_longer_filter_shows_fewer
    (shorter longer : string) (l : list Json) (c : bool) :
  longer ≠ "" →
  (∃ pre post, toLowerCase longer = pre ++ toLowerCase shorter ++ post) →
  visibleLogs (mkState l longer c) `sublist_of` visibleLogs (mkState l shorter c).
Proof.
  intros Hne (pre & post & Hocc). unfold visibleLogs. simpl.
  apply filter_sublist. intros entry. unfold shown.
  destruct (falsy longer) eqn:Hf; [by apply is_falsy in Hf|].
  destruct (falsy shorter); [done|].
  rewrite !includes_spec. intros (a & b & Hab).
  exists (a ++ pre), (post ++ b). rewrite Hab, Hocc.
  by rewrite !append_assoc.
Qed.

End LogViewerMore.

Section MoreExamples.
Import LogViewer LogViewerView.
#[local] Existing Instance JSON.builtins.

Lemma X12_witness :
  Stream.payload ≠ ""
  ∧ JSON_parse Stream.payload = Normal Samples.record
  ∧ (length (logs (ui Stream.start)) ≤ 100)%nat
  ∧ ∃ w', onLog Stream.payload Stream.start = Normal w'
          ∧ last (logs (ui w')) = Some Samples.record.
Proof.
  assert (Stream.payload ≠ "") as Hne by (vm_compute; discriminate).
  assert (JSON_parse Stream.payload = Normal Samples.record) as Hv
    by (vm_compute; reflexivity).
  assert (length (logs (ui Stream.start)) ≤ 100)%nat as Hle by (simpl; lia).
  split; [exact Hne|]. split; [exact Hv|]. split; [exact Hle|].
  destruct (X12_log_event_appends_and_drops_the_oldest
              Stream.payload Samples.record Stream.start Hne Hv Hle)
    as (w' & Hon & _ & Hlast & _).
  exists w'. split; [exact Hon|exact Hlast].
Defined.

Lemma X13_witness :
  (length (logs (ui Samples.one_record_then_error)) ≤ 100)%nat
  ∧ (length (logs (ui Samples.one_record_then_error))
     ≤ length (logs (ui (deliver Stream.one_log Samples.one_record_then_error))))%nat.
Proof.
  assert (length (logs (ui Samples.one_record_then_error)) ≤ 100)%nat as Hle
    by (vm_compute; lia).
  split; [exact Hle|].
  exact (proj1 (proj1
    (X13_retained_count_never_decreases Stream.one_log
       Samples.one_record_then_error Hle))).
Defined.

Lemma X14_witness :
  connectionError (ui Samples.one_record_then_error) = true
  ∧ Forall (λ e, ∀ data, e = PingEvent data → JSON_parse data = Throw SyntaxError)
      (Stream.one_log ++ [PingEvent "keepalive"])
  ∧ errorBannerShown
      (ui (deliver (Stream.one_log ++ [PingEvent "keepalive"])
             Samples.one_record_then_error)) = true.
Proof.
  assert (connectionError (ui Samples.one_record_then_error) = true) as Hc
    by reflexivity.
  assert (Forall (λ e, ∀ data, e = PingEvent data → JSON_parse data = Throw SyntaxError)
            (Stream.one_log ++ [PingEvent "keepalive"])) as Hes.
  { repeat constructor.
    - intros data [=].
    - intros data [= <-]. reflexivity. }
  split; [exact Hc|]. split; [exact Hes|].
  exact (proj1 (X14_connection_error_waits_for_a_ping
                  (Stream.one_log ++ [PingEvent "keepalive"])
                  Samples.one_record_then_error) Hc Hes).
Defined.

Lemma X15_witness :
  "MESS" ≠ ""
  ∧ (∃ pre post, toLowerCase "MESS" = pre ++ toLowerCase "es" ++ post)
  ∧ visibleLogs (mkState [Samples.record] "MESS" false)
    `sublist_of` visibleLogs (mkState [Samples.record] "es" false).
Proof.
  assert ("MESS" ≠ "") as Hne by discriminate.
  assert (∃ pre post, toLowerCase "MESS" = pre ++ toLowerCase "es" ++ post) as Hocc
    by (by exists "m", "s").
  split; [exact Hne|]. split; [exact Hocc|].
  exact (X15_longer_filter_shows_fewer "es" "MESS" [Samples.record] false Hne Hocc).
Defined.

End MoreExamples.
